(** * cf_footprint: a shallow embedding of [cf_footprint.py]

    The script estimates the electricity and carbon footprint of the
    applications of a Cloud Foundry organisation: it runs [cf] commands,
    parses their text output, and applies a linear energy model.

    Layout: the Python values and builtins the script relies on ([Py]),
    the fragment of [re] it uses ([Re]), binary64 arithmetic ([Float64]),
    then the script itself, function by function, and finally the
    properties of each function. *)

From Stdlib Require Import List String Ascii Bool ZArith NArith QArith Qround
  Qabs Qpower Lia Lqa DecimalString.
From Stdlib Require PrimFloat FloatOps SpecFloat Uint63.
Import ListNotations.

(* ================================================================== *)
(** ** Python values and builtins *)
(* ================================================================== *)

Module Py.

(** A [str] is a sequence of Unicode code points. *)
Definition char := N.
Definition str := list char.

(** String literals of the script. *)
Definition lit (s : string) : str :=
  List.map N_of_ascii (list_ascii_of_string s).

Fixpoint str_eqb (a b : str) : bool :=
  match a, b with
  | [], [] => true
  | x :: a', y :: b' => N.eqb x y && str_eqb a' b'
  | _, _ => false
  end.

(** [len(s) > 0], the truth value of a string. *)
Definition truthy (s : str) : bool :=
  match s with [] => false | _ :: _ => true end.

(** [s.startswith(p)] *)
Fixpoint startswith (p s : str) : bool :=
  match p, s with
  | [], _ => true
  | x :: p', y :: s' => N.eqb x y && startswith p' s'
  | _ :: _, [] => false
  end.

(** [needle in s] for two strings: substring search. *)
Fixpoint substring (needle s : str) : bool :=
  startswith needle s ||
  match s with
  | [] => false
  | _ :: s' => substring needle s'
  end.

(** [s.partition(sep)]: the text before and after the leftmost
    occurrence of [sep], when there is one. *)
Fixpoint partition (sep s : str) : option (str * str) :=
  if startswith sep s then Some ([], skipn (List.length sep) s)
  else match s with
       | [] => None
       | c :: s' =>
           match partition sep s' with
           | Some (before, after) => Some (c :: before, after)
           | None => None
           end
       end.

(** [s.split(sep, 1)]: at most one split, at the leftmost occurrence. *)
Definition split1 (sep s : str) : list str :=
  match partition sep s with
  | Some (before, after) => [before; after]
  | None => [s]
  end.

(** The line boundaries of [str.splitlines]: LF, VT, FF, CR, FS, GS, RS,
    NEL, LINE SEPARATOR and PARAGRAPH SEPARATOR. *)
Definition is_linebreak (c : char) : bool :=
  match c with
  | 10 | 11 | 12 | 13 | 28 | 29 | 30 | 133 | 8232 | 8233 => true
  | _ => false
  end%N.

(** [s.splitlines()].  [cur] is the line being read (reversed), [None]
    between lines; CR LF counts as one boundary and a final boundary
    opens no further line. *)
Fixpoint splitlines_from (cur : option str) (s : str) : list str :=
  match s with
  | [] => match cur with None => [] | Some l => [rev l] end
  | c :: t =>
      let l := match cur with None => [] | Some l => l end in
      if is_linebreak c then
        rev l ::
        match t with
        | d :: t' =>
            if (c =? 13)%N && (d =? 10)%N then splitlines_from None t'
            else splitlines_from None t
        | [] => splitlines_from None t
        end
      else splitlines_from (Some (c :: l)) t
  end.

Definition splitlines (s : str) : list str := splitlines_from None s.

(** [str.isspace] on one character, which is also what [\s] matches in a
    [str] pattern. *)
Definition isspace (c : char) : bool :=
  ((9 <=? c) && (c <=? 13) || (28 <=? c) && (c <=? 32) ||
   (c =? 133) || (c =? 160) || (c =? 5760) ||
   (8192 <=? c) && (c <=? 8202) || (c =? 8232) || (c =? 8233) ||
   (c =? 8239) || (c =? 8287) || (c =? 12288))%N.

(** The class [[0-9]]. *)
Definition isdigit (c : char) : bool := ((48 <=? c) && (c <=? 57))%N.

(** The objects that reach an [in] test or an exception argument. *)
Inductive obj :=
| Str (s : str)
| List (l : list str)
| Method (name : str).   (* a bound method, such as [pipe.read] *)

Inductive exn :=
| RuntimeError (msg : str) (arg : obj)
| IndexError
| TypeError
| ValueError
| OverflowError
| ZeroDivisionError.

Inductive result (A : Type) :=
| Ok (a : A)
| Raise (e : exn).
Arguments Ok {A} a.
Arguments Raise {A} e.

Definition bind {A B} (r : result A) (k : A -> result B) : result B :=
  match r with
  | Ok a => k a
  | Raise e => Raise e
  end.

(** [l[i]] *)
Definition getitem {A} (l : list A) (i : nat) : result A :=
  match nth_error l i with
  | Some a => Ok a
  | None => Raise IndexError
  end.

(** [needle in container]: substring search in a string, membership in
    a list, and a [TypeError] for an object that is not a container. *)
Definition contains (needle : str) (container : obj) : result bool :=
  match container with
  | Str s => Ok (substring needle s)
  | List l => Ok (existsb (str_eqb needle) l)
  | Method _ => Raise TypeError
  end.

(** The value of a string of ASCII digits. *)
Definition digits_value (ds : str) : Z :=
  fold_left (fun acc d => (10 * acc + (Z.of_N d - 48))%Z) ds 0%Z.

(** [str(n)] for an integer. *)
Definition str_of_int (n : Z) : str :=
  lit (NilZero.string_of_int (Z.to_int n)).

End Py.
Export Py.

Declare Scope py_scope.
Delimit Scope py_scope with py.
Notation "x <- r ;; k" := (Py.bind r (fun x => k))
  (at level 61, r at next level, right associativity) : py_scope.

Local Open Scope py_scope.

(* ================================================================== *)
(** ** The fragment of [re] the script uses *)
(* ================================================================== *)

Module Re.

(** Character classes: [\s], [[0-9]] and a literal character. *)
Inductive cls :=
| Space
| Digit
| Chr (c : char).

Definition cls_match (k : cls) (c : char) : bool :=
  match k with
  | Space => isspace c
  | Digit => isdigit c
  | Chr x => N.eqb x c
  end.

(** Quantifiers, all greedy: exactly one, [?] and [*]. *)
Inductive quant := One | Opt | Star.

(** A pattern is a sequence of quantified classes; [Open] and [Close]
    delimit its capturing group. *)
Inductive item :=
| Atom (k : cls) (q : quant)
| Open
| Close.

Definition pattern := list item.

(** The literal text [s] as a pattern. *)
Definition text (s : string) : pattern :=
  List.map (fun c => Atom (Chr c) One) (lit s).

(** A character consumed while the group is open joins the capture
    ([grp], kept reversed). *)
Definition push (opened : bool) (c : char) (grp : str) : str :=
  if opened then c :: grp else grp.

(** Backtracking match of [p] at the start of [s].  Alternatives are
    tried in the order of the [re] module: a greedy quantifier first
    takes a character and gives it back only if the rest of the pattern
    fails.  The result is the text of group 1. *)
Fixpoint match_here (p : pattern) (opened : bool) (grp : str) (s : str)
  : option str :=
  match p with
  | [] => Some (rev grp)
  | Open :: p' => match_here p' true [] s
  | Close :: p' => match_here p' false grp s
  | Atom k One :: p' =>
      match s with
      | c :: s' =>
          if cls_match k c then match_here p' opened (push opened c grp) s'
          else None
      | [] => None
      end
  | Atom k Opt :: p' =>
      let skip := match_here p' opened grp s in
      match s with
      | c :: s' =>
          if cls_match k c then
            match match_here p' opened (push opened c grp) s' with
            | Some g => Some g
            | None => skip
            end
          else skip
      | [] => skip
      end
  | Atom k Star :: p' =>
      (fix star (grp : str) (s : str) {struct s} : option str :=
         match s with
         | c :: s' =>
             if cls_match k c then
               match star (push opened c grp) s' with
               | Some g => Some g
               | None => match_here p' opened grp s
               end
             else match_here p' opened grp s
         | [] => match_here p' opened grp s
         end) grp s
  end.

(** [re.search(p, s)]: the match at the leftmost position that has one;
    the result is [m.group(1)]. *)
Fixpoint search (p : pattern) (s : str) : option str :=
  match match_here p false [] s with
  | Some g => Some g
  | None =>
      match s with
      | [] => None
      | _ :: s' => search p s'
      end
  end.

(** What a pattern matches, without the order of the attempts: [derives
    p opened grp w grp'] when [p] can consume exactly [w], taking the
    capture from [grp] to [grp']. *)
Inductive derives : pattern -> bool -> str -> str -> str -> Prop :=
| D_end opened grp : derives [] opened grp [] grp
| D_open p opened grp w grp' :
    derives p true [] w grp' -> derives (Open :: p) opened grp w grp'
| D_close p opened grp w grp' :
    derives p false grp w grp' -> derives (Close :: p) opened grp w grp'
| D_one k p opened grp c w grp' :
    cls_match k c = true ->
    derives p opened (push opened c grp) w grp' ->
    derives (Atom k One :: p) opened grp (c :: w) grp'
| D_opt_take k p opened grp c w grp' :
    cls_match k c = true ->
    derives p opened (push opened c grp) w grp' ->
    derives (Atom k Opt :: p) opened grp (c :: w) grp'
| D_opt_skip k p opened grp w grp' :
    derives p opened grp w grp' ->
    derives (Atom k Opt :: p) opened grp w grp'
| D_star_take k p opened grp c w grp' :
    cls_match k c = true ->
    derives (Atom k Star :: p) opened (push opened c grp) w grp' ->
    derives (Atom k Star :: p) opened grp (c :: w) grp'
| D_star_skip k p opened grp w grp' :
    derives p opened grp w grp' ->
    derives (Atom k Star :: p) opened grp w grp'.

End Re.

(* ================================================================== *)
(** ** Python floats: IEEE 754 binary64 *)
(* ================================================================== *)

Module Float64.

Local Open Scope Q_scope.

(** A float is a finite binary64 number, given by its exact rational
    value, an infinity or a NaN.  The sign of a zero is not kept: no
    operation of the script can observe it. *)
Inductive float :=
| Finite (q : Q)
| Inf (negative : bool)
| NaN.

Definition two_to (k : Z) : Q := 2 ^ k.

(** Rounding to the nearest integer, ties to the even one. *)
Definition round_half_even (q : Q) : Z :=
  let f := Qfloor q in
  match Qcompare (q - inject_Z f) (1 # 2) with
  | Lt => f
  | Gt => (f + 1)%Z
  | Eq => if Z.even f then f else (f + 1)%Z
  end.

(** For [0 < q], the exponent [e] with [2^(e-1) <= q < 2^e]. *)
Definition mag (q : Q) : Z :=
  let d := (Z.log2 (Qnum q) - Z.log2 (Zpos (Qden q)))%Z in
  if Qle_bool (two_to d) q then (d + 1)%Z else d.

(** The exponent of the last place of the binary64 numbers around [q]:
    53 significant bits, and no exponent below that of the subnormal
    numbers. *)
Definition ulp_exp (q : Q) : Z := Z.max (mag q - 53) (-1074).

(** The multiple of [2^(ulp_exp q)] nearest to [q], for [0 < q]. *)
Definition round_pos (q : Q) : Q :=
  let e := ulp_exp q in
  inject_Z (round_half_even (q * two_to (- e))) * two_to e.

(** Round to nearest, ties to even, with an unbounded exponent above. *)
Definition rnd (q : Q) : Q :=
  Qred match Qcompare q 0 with
       | Eq => 0
       | Gt => round_pos q
       | Lt => - round_pos (- q)
       end.

(** The result of an arithmetic operation whose exact value is [q]:
    [q] rounded, and an infinity from [2^1024] on. *)
Definition round64 (q : Q) : float :=
  let r := rnd q in
  if Qle_bool (two_to 1024) (Qabs r) then Inf (Qle_bool r 0) else Finite r.

Definition is_neg (q : Q) : bool := negb (Qle_bool 0 q).

(** [x * y] on floats. *)
Definition mul (x y : float) : float :=
  match x, y with
  | NaN, _ | _, NaN => NaN
  | Finite a, Finite b => round64 (a * b)
  | Inf s, Inf t => Inf (xorb s t)
  | Inf s, Finite b | Finite b, Inf s =>
      if Qeq_bool b 0 then NaN else Inf (xorb s (is_neg b))
  end.

(** [x / y] on floats. *)
Definition div (x y : float) : result float :=
  match x, y with
  | _, Finite b =>
      if Qeq_bool b 0 then Raise ZeroDivisionError
      else Ok match x with
              | Finite a => round64 (a / b)
              | Inf s => Inf (xorb s (is_neg b))
              | NaN => NaN
              end
  | NaN, _ | _, NaN => Ok NaN
  | Inf _, Inf _ => Ok NaN
  | Finite _, Inf _ => Ok (Finite 0)
  end.

(** [x + y] on floats. *)
Definition add (x y : float) : float :=
  match x, y with
  | NaN, _ | _, NaN => NaN
  | Finite a, Finite b => round64 (a + b)
  | Inf s, Inf t => if Bool.eqb s t then Inf s else NaN
  | Inf s, Finite _ | Finite _, Inf s => Inf s
  end.

(** [float(n)] for an integer, as done for a mixed operation. *)
Definition of_int (n : Z) : result float :=
  match round64 (inject_Z n) with
  | Inf _ => Raise OverflowError
  | x => Ok x
  end.

(** [a / b] on two integers: the quotient, rounded once. *)
Definition int_truediv (a b : Z) : result float :=
  if (b =? 0)%Z then Raise ZeroDivisionError
  else match round64 (inject_Z a / inject_Z b) with
       | Inf _ => Raise OverflowError
       | x => Ok x
       end.

(** [x * n] and [x / n] for a float and an integer. *)
Definition mul_int (x : float) (n : Z) : result float :=
  y <- of_int n ;; Ok (mul x y).

Definition div_int (x : float) (n : Z) : result float :=
  y <- of_int n ;; div x y.

(** [round(x)]: the nearest integer, ties to even. *)
Definition round (x : float) : result Z :=
  match x with
  | Finite q => Ok (round_half_even q)
  | Inf _ => Raise OverflowError
  | NaN => Raise ValueError
  end.

(** The machine's binary64 numbers, read into the model: used to compare
    the operations above with the processor's. *)
Definition of_machine (x : PrimFloat.float) : float :=
  match FloatOps.Prim2SF x with
  | SpecFloat.S754_zero _ => Finite 0
  | SpecFloat.S754_infinity s => Inf s
  | SpecFloat.S754_nan => NaN
  | SpecFloat.S754_finite s m e =>
      Finite (Qred ((if s then -1 else 1) * inject_Z (Zpos m) * two_to e))
  end.

Definition machine_int (n : Z) : PrimFloat.float :=
  PrimFloat.of_uint63 (Uint63.of_Z n).

End Float64.

(* ================================================================== *)
(** ** The script *)
(* ================================================================== *)

(** What the script takes from its host: the [cf] client behind
    [os.popen], whose answers depend on a state the script does not own,
    and the interpreter's [int()] on text other than plain ASCII digits
    (signs, underscores, spaces and the digits of other scripts depend on
    the interpreter and its Unicode tables). *)
Class Host := {
  World : Type;
  popen_read : str -> World -> str * World;
  int_text : str -> result Z
}.

(** Command-line arguments, as [argparse] returns them. *)
Record Args := {
  year : bool;
  carbon : option str;
  space : option str;
  verbose : bool
}.

(** An optional string argument under [if args.x]: the branch is taken
    with the value when it is neither [None] nor empty. *)
Definition given (a : option str) : option str :=
  match a with
  | Some s => if truthy s then Some s else None
  | None => None
  end.

(** Calls recorded along a run: the value [get_active_instances] returned
    and the arguments [print_footprint] received. *)
Inductive event :=
| Instances (n : Z)
| Report (name : str) (active_instances : Z).

(* Constants *)
Definition WATT_PER_SERVER : Z := 400.
Definition INSTANCES_PER_SERVER : Z := 65.
Definition HOURS_PER_YEAR : Float64.float :=   (* 365.25 * 24 *)
  Eval vm_compute in
    Float64.mul (Float64.Finite (36525 # 100)) (Float64.Finite 24).
Definition TOTAL : str := lit "TOTAL".

(** [r"\sstarted\s*web:([0-9]?[0-9])/[0-9]?[0-9]"] *)
Definition started_web : Re.pattern :=
  Re.Atom Re.Space Re.One :: Re.text "started" ++
  Re.Atom Re.Space Re.Star :: Re.text "web:" ++
  [Re.Open; Re.Atom Re.Digit Re.Opt; Re.Atom Re.Digit Re.One; Re.Close] ++
  Re.text "/" ++
  [Re.Atom Re.Digit Re.Opt; Re.Atom Re.Digit Re.One].

(** Plain decimal text: one to 640 ASCII digits, below every limit an
    interpreter can put on the conversion. *)
Definition plain_decimal (s : str) : bool :=
  truthy s && forallb isdigit s && (List.length s <=? 640)%nat.

Section Script.

Context {host : Host}.

(** [int(s)] *)
Definition py_int (s : str) : result Z :=
  if plain_decimal s then Ok (digits_value s) else int_text s.

(** *** Running the script: state and exceptions *)

(** The state of a run: the world behind [cf], the lines printed by
    [print_footprint], and the calls recorded.  The narration printed
    under [verbose] is not part of the model: it changes no value, no
    exception and no line of the report. *)
Record state := {
  world : World;
  stdout : list str;
  calls : list event
}.

Definition M (A : Type) : Type := state -> result A * state.

Definition ret {A} (a : A) : M A := fun st => (Ok a, st).

Definition raise {A} (e : exn) : M A := fun st => (Raise e, st).

Definition bindM {A B} (m : M A) (k : A -> M B) : M B :=
  fun st =>
    match m st with
    | (Ok a, st') => k a st'
    | (Raise e, st') => (Raise e, st')
    end.

Definition lift {A} (r : result A) : M A := fun st => (r, st).

(** [os.popen(cmd).read()] *)
Definition popen (cmd : str) : M str :=
  fun st =>
    let (out, w) := popen_read cmd (world st) in
    (Ok out, {| world := w; stdout := stdout st; calls := calls st |}).

(** [print(line)] *)
Definition print (line : str) : M unit :=
  fun st =>
    (Ok tt, {| world := world st; stdout := stdout st ++ [line];
               calls := calls st |}).

Definition record (e : event) : M unit :=
  fun st =>
    (Ok tt, {| world := world st; stdout := stdout st;
               calls := calls st ++ [e] |}).

End Script.

Declare Scope run_scope.
Delimit Scope run_scope with run.
Notation "x <- m ;; k" := (bindM m (fun x => k))
  (at level 61, m at next level, right associativity) : run_scope.
Notation "m ;; k" := (bindM m (fun _ => k))
  (at level 61, right associativity) : run_scope.

Section Functions.

Context {host : Host}.

Local Open Scope run_scope.

Definition nl : str := [10%N].

(** *** [login_cf]

    [os.popen(login).read] names the method without calling it: the
    command is started, and [login_output] is the bound method. *)
Definition login_cf (cf_api cf_user cf_pwd cf_org cf_space : str) : M unit :=
  let login := lit "cf login -a " ++ cf_api ++ lit ", -u " ++ cf_user ++
               lit ", -p " ++ cf_pwd ++ lit ", -o " ++ cf_org ++
               lit ", -s " ++ cf_space in
  _ <- popen login ;;
  let login_output := Method (lit "read") in
  found <- lift (contains (lit "API endpoint:") login_output) ;;
  if (found : bool) then ret tt
  else raise (RuntimeError (lit "Error logging into Cloud Foundry:")
                login_output).

(** *** [get_cf_spaces] *)

(** The function on the text [cf spaces] printed. *)
Definition list_spaces (spaces_output : str) : result (list str) :=
  (found <- contains (lit "name" ++ nl) (Str spaces_output) ;;
   if (found : bool) then
     after <- getitem (split1 (lit "name" ++ nl) spaces_output) 1 ;;
     Ok (splitlines after)
   else Raise (RuntimeError (lit "Error retrieving Cloud Foundry spaces:")
                 (Str spaces_output)))%py.

Definition get_cf_spaces : M (list str) :=
  spaces_output <- popen (lit "cf spaces") ;;
  lift (list_spaces spaces_output).

(** *** [switch_to_cf_space] *)
Definition switch_to_cf_space (space : str) : M unit :=
  switch_output <- popen (lit "cf target -s " ++ space) ;;
  found <- lift (contains (lit "API endpoint") (Str switch_output)) ;;
  if (found : bool) then ret tt
  else raise (RuntimeError (lit "Error switching to space:")
                (Str switch_output)).

(** *** [get_active_instances] *)

(** The loop over the lines: [instances] grows by group 1 of each line
    the pattern is found in. *)
Fixpoint count_started (lines : list str) (instances : Z) : result Z :=
  match lines with
  | [] => Ok instances
  | line :: rest =>
      match Re.search started_web line with
      | Some group1 =>
          (n <- py_int group1 ;; count_started rest (instances + n))%py
      | None => count_started rest instances
      end
  end.

(** The function on the text [cf apps] printed. *)
Definition count_active_instances (apps_text : str) : result Z :=
  (let apps_output := splitlines apps_text in
   found <- contains (lit "No apps found") (List apps_output) ;;
   if (found : bool) then Ok 0%Z
   else
     third <- getitem apps_output 2 ;;
     if startswith (lit "name") third then count_started apps_output 0
     else Raise (RuntimeError (lit "Error retrieving applications data")
                   (List apps_output)))%py.

Definition get_active_instances : M Z :=
  apps_text <- popen (lit "cf apps") ;;
  instances <- lift (count_active_instances apps_text) ;;
  record (Instances instances) ;;
  ret instances.

(** *** [get_services] *)

(** The function on the text [cf services] printed. *)
Definition count_services (services_text : str) : result Z :=
  (let services_output := splitlines services_text in
   found <- contains (lit "No services found") (List services_output) ;;
   if (found : bool) then Ok 0%Z
   else
     let services :=
       fold_left (fun services svs =>
                    if truthy svs then (services + 1)%Z else services)
                 services_output 0%Z in
     Ok (services - 2)%Z)%py.

Definition get_services : M Z :=
  services_text <- popen (lit "cf services") ;;
  lift (count_services services_text).

(** *** The footprint formulas *)

Definition calculate_footprint (active_instances : Z)
  : result Float64.float :=
  (servers <- Float64.int_truediv active_instances INSTANCES_PER_SERVER ;;
   Float64.mul_int servers WATT_PER_SERVER)%py.

Definition calculate_footprint_per_year (active_instances : Z)
  : result Float64.float :=
  (watt <- calculate_footprint active_instances ;;
   Float64.div_int (Float64.mul watt HOURS_PER_YEAR) 1000)%py.

Definition calculate_carbon_footprint_per_year
  (active_instances carbon_intensity : Z) : result Float64.float :=
  (kwh <- calculate_footprint_per_year active_instances ;;
   grams <- Float64.mul_int kwh carbon_intensity ;;
   Float64.div_int grams 1000)%py.

(** *** [print_footprint] *)

Definition label (name : str) : str :=
  if str_eqb name TOTAL then TOTAL ++ lit ":"
  else lit "Space " ++ name ++ lit ":".

(** ["{} {} <unit>".format(_name, value)] *)
Definition report_line (_name : str) (value : Z) (unit_text : string) : str :=
  _name ++ lit " " ++ str_of_int value ++ lit " " ++ lit unit_text.

Definition print_footprint (args : Args) (name : str) (active_instances : Z)
  : M unit :=
  record (Report name active_instances) ;;
  let _name := label name in
  match given (carbon args) with
  | Some c =>
    intensity <- lift (py_int c) ;;
    value <- lift (calculate_carbon_footprint_per_year
                     active_instances intensity) ;;
    rounded <- lift (Float64.round value) ;;
    print (report_line _name rounded "kg CO2e per year")
  | None =>
  if year args then
    value <- lift (calculate_footprint_per_year active_instances) ;;
    rounded <- lift (Float64.round value) ;;
    print (report_line _name rounded "kWh per year")
  else
    value <- lift (calculate_footprint active_instances) ;;
    rounded <- lift (Float64.round value) ;;
    print (report_line _name rounded "Watt")
  end.

(** *** [main] *)

(** The loop over the spaces, from a running total. *)
Fixpoint each_space (args : Args) (spaces : list str) (total_instances : Z)
  : M Z :=
  match spaces with
  | [] => ret total_instances
  | space :: rest =>
      switch_to_cf_space space ;;
      active_instances <- get_active_instances ;;
      let total_instances := (total_instances + active_instances)%Z in
      print_footprint args space active_instances ;;
      each_space args rest total_instances
  end.

Definition main (args : Args) : M unit :=
  let total_instances := 0%Z in
  match given (space args) with
  | Some name =>
    switch_to_cf_space name ;;
    active_instances <- get_active_instances ;;
    print_footprint args name active_instances ;;
    _ <- get_services ;;
    ret tt
  | None =>
    spaces <- get_cf_spaces ;;
    total_instances <- each_space args spaces total_instances ;;
    print_footprint args TOTAL total_instances
  end.

End Functions.

(* ================================================================== *)
(** ** A simulated [cf] client *)
(* ================================================================== *)

(** A small stand-in for the platform, to run the script on: an
    organisation is a list of spaces with the text [cf apps] prints in
    each; [cf target -s] moves to a space of the list. *)
Module Sim.

Record cloud := {
  org : list (str * str);      (* space name, text of [cf apps] there *)
  targeted : str
}.

Fixpoint apps_of (o : list (str * str)) (name : str) : option str :=
  match o with
  | [] => None
  | (n, text) :: o' => if str_eqb n name then Some text else apps_of o' name
  end.

Definition spaces_listing (o : list (str * str)) : str :=
  lit "Getting spaces in org acme as dev..." ++ nl ++ nl ++
  lit "name" ++ nl ++
  flat_map (fun p => fst p ++ nl) o.

Definition cf (cmd : str) (w : cloud) : str * cloud :=
  if str_eqb cmd (lit "cf spaces") then (spaces_listing (org w), w)
  else if str_eqb cmd (lit "cf apps") then
    (match apps_of (org w) (targeted w) with
     | Some text => text
     | None => lit "FAILED" ++ nl
     end, w)
  else if str_eqb cmd (lit "cf services") then
    (lit "No services found" ++ nl, w)
  else if startswith (lit "cf login ") cmd then
    (lit "API endpoint: https://api.example.org" ++ nl ++
     lit "Authenticating..." ++ nl ++ lit "OK" ++ nl, w)
  else if startswith (lit "cf target -s ") cmd then
    let name := skipn 13 cmd in
    match apps_of (org w) name with
    | Some _ =>
        (lit "API endpoint:   https://api.example.org" ++ nl,
         {| org := org w; targeted := name |})
    | None => (lit "FAILED" ++ nl, w)
    end
  else ([], w).

Definition host : Host :=
  {| World := cloud; popen_read := cf;
     int_text := fun _ => Raise ValueError |}.

(** The text of [cf apps] for a list of rows. *)
Definition apps_table (rows : list string) : str :=
  lit "Getting apps in org acme / space dev as dev..." ++ nl ++
  lit "OK" ++ nl ++
  lit "name       requested state   instances   memory   disk   urls" ++ nl ++
  flat_map (fun r => lit r ++ nl) rows.

Definition no_apps : str :=
  lit "Getting apps in org acme / space dev as dev..." ++ nl ++
  lit "OK" ++ nl ++ nl ++ lit "No apps found" ++ nl.

(** Two spaces, with 10 and 55 running instances. *)
Definition two_spaces : list (str * str) :=
  [(lit "space-a",
    apps_table ["api      started           web:7/7     1G       1G     api.example.org";
                "ui       started           web:3/4     256M     1G     ui.example.org";
                "old      stopped           web:0/2     256M     1G     "]%string);
   (lit "space-b",
    apps_table ["batch    started           web:55/60   2G       1G     "]%string)].

Definition start (o : list (str * str)) : @state host :=
  {| world := ({| org := o; targeted := [] |} : @World host);
     stdout := []; calls := [] |}.

End Sim.

(** No option on the command line. *)
Definition no_flags : Args :=
  {| year := false; carbon := None; space := None; verbose := false |}.

(* ================================================================== *)
(** ** Vocabulary of the statements *)
(* ================================================================== *)

(** The calls of the loop of [main] over [spaces], when
    [get_active_instances] returned [counts] there: one measurement and
    one report per space, in order. *)
Definition visits (spaces : list str) (counts : list Z) : list event :=
  flat_map (fun p => [Instances (snd p); Report (fst p) (snd p)])
           (combine spaces counts).

Definition sum (counts : list Z) : Z := fold_right Z.add 0%Z counts.

(** The state after [print_footprint] received [name] and [n] and
    printed [lines]. *)
Definition after_report {host : Host} (st : state) (name : str) (n : Z)
  (lines : list str) : state :=
  {| world := world st;
     stdout := stdout st ++ lines;
     calls := calls st ++ [Report name n] |}.

(** A host that keeps the list of the commands it was given, beside the
    state of the host it wraps. *)
Definition logging (h : Host) : Host :=
  {| World := (@World h * list str)%type;
     popen_read := fun cmd w =>
       let (out, w') := @popen_read h cmd (fst w) in
       (out, (w', snd w ++ [cmd]));
     int_text := @int_text h |}.

(** The commands run so far, in a run on such a host. *)
Definition commands {h : Host} (st : @state (logging h)) : list str :=
  snd (world st).

(** The commands of the loop of [main] over [spaces]. *)
Definition space_commands (spaces : list str) : list str :=
  flat_map (fun name => [lit "cf target -s " ++ name; lit "cf apps"]) spaces.

(** The footprint of [n] instances in exact arithmetic, in Watt. *)
Definition exact_watts (n : Z) : Q := (inject_Z n / 65 * 400)%Q.

(** The yearly energy of [n] instances in exact arithmetic, in kWh. *)
Definition exact_kwh (n : Z) : Q := (exact_watts n * 8766 / 1000)%Q.

(** One or two digits. *)
Definition one_or_two_digits (d : str) : Prop :=
  (List.length d = 1 \/ List.length d = 2)%nat /\
  Forall (fun c => isdigit c = true) d.

(** The entry the listing shows for a started application, at the start
    of [s]: a whitespace character, [started], optional whitespace,
    [web:], one or two digits ([running]), a slash, and one or two
    digits. *)
Definition entry_at (s running : str) : Prop :=
  exists (c : char) (ws requested rest : str),
    isspace c = true /\
    Forall (fun x => isspace x = true) ws /\
    one_or_two_digits running /\
    one_or_two_digits requested /\
    s = [c] ++ lit "started" ++ ws ++ lit "web:" ++ running ++ lit "/" ++
        requested ++ rest.

(** [before] is followed by such an entry in [line]. *)
Definition entry_after (line before running : str) : Prop :=
  exists s, line = before ++ s /\ entry_at s running.

(** The number a line stands for: the first number of its leftmost
    entry, and 0 when it has none. *)
Definition line_instances (line : str) (n : Z) : Prop :=
  (exists before running,
      entry_after line before running /\
      (forall b r, entry_after line b r ->
                   (List.length before <= List.length b)%nat) /\
      n = digits_value running) \/
  ((forall b r, ~ entry_after line b r) /\ n = 0%Z).

(* ================================================================== *)
(** ** Properties of the builtins *)
(* ================================================================== *)

Lemma str_eqb_eq (a b : str) : str_eqb a b = true <-> a = b.
Proof.
  revert b; induction a as [|x a IH]; intros [|y b]; simpl;
    try (split; (reflexivity || discriminate)).
  rewrite andb_true_iff, N.eqb_eq, IH.
  split; [intros [-> ->]; reflexivity | intros [= -> ->]; auto].
Qed.

Lemma str_eqb_refl (a : str) : str_eqb a a = true.
Proof. apply str_eqb_eq; reflexivity. Qed.

Lemma member_In (x : str) (l : list str) :
  existsb (str_eqb x) l = true <-> In x l.
Proof.
  rewrite existsb_exists; split.
  - intros (y & Hy & E). apply str_eqb_eq in E. subst; assumption.
  - intros H. exists x. split; [assumption | apply str_eqb_refl].
Qed.

Lemma not_member_In (x : str) (l : list str) :
  existsb (str_eqb x) l = false <-> ~ In x l.
Proof.
  rewrite <- member_In. destruct (existsb _ l); split; intros H;
    try reflexivity; try discriminate; try (intros [=]).
  exfalso; apply H; reflexivity.
Qed.

Lemma startswith_app (p s : str) :
  startswith p s = true <-> exists r, s = p ++ r.
Proof.
  revert s; induction p as [|x p IH]; intros s; simpl.
  - split; [intros _; exists s; reflexivity | reflexivity].
  - destruct s as [|y s].
    + split; [discriminate | intros (r & [=])].
    + rewrite andb_true_iff, N.eqb_eq, IH. split.
      * intros (-> & r & ->). exists r; reflexivity.
      * intros (r & [= -> ->]). split; [reflexivity | exists r; reflexivity].
Qed.

Lemma skipn_prefix (p r : str) : skipn (List.length p) (p ++ r) = r.
Proof. induction p; simpl; auto. Qed.

Lemma startswith_skipn (p s : str) :
  startswith p s = true -> s = p ++ skipn (List.length p) s.
Proof.
  intros H. apply startswith_app in H. destruct H as (r & ->).
  rewrite skipn_prefix. reflexivity.
Qed.

(** [partition] splits at an occurrence of the separator, and no
    occurrence starts further left. *)
Lemma partition_Some (sep s before after : str) :
  partition sep s = Some (before, after) ->
  s = before ++ sep ++ after /\
  forall b a, s = b ++ sep ++ a -> (List.length before <= List.length b)%nat.
Proof.
  revert before after; induction s as [|c s IH]; intros before after; simpl.
  - destruct (startswith sep []) eqn:E; [|discriminate].
    intros [= <- <-]. split; [|intros; simpl; lia].
    apply startswith_skipn; assumption.
  - destruct (startswith sep (c :: s)) eqn:E.
    + intros [= <- <-]. split; [|intros; simpl; lia].
      apply (startswith_skipn sep (c :: s)); assumption.
    + destruct (partition sep s) as [[b0 a0]|] eqn:P; [|discriminate].
      intros [= <- <-]. destruct (IH _ _ eq_refl) as (-> & Hmin).
      split; [reflexivity|].
      intros b a Hs. destruct b as [|x b].
      * simpl in Hs. exfalso.
        assert (startswith sep (c :: b0 ++ sep ++ a0) = true)
          by (apply startswith_app; exists a; assumption).
        congruence.
      * simpl in Hs. injection Hs as -> Hs. simpl.
        apply le_n_S. eapply Hmin; eassumption.
Qed.

Lemma partition_None (sep s : str) :
  partition sep s = None <-> substring sep s = false.
Proof.
  induction s as [|c s IH]; simpl.
  - destruct (startswith sep []); simpl; split; congruence.
  - destruct (startswith sep (c :: s)); simpl; [split; congruence|].
    rewrite <- IH. destruct (partition sep s) as [[? ?]|]; split; congruence.
Qed.


Lemma app_same_length {A} (a b x y : list A) :
  a ++ x = b ++ y -> List.length a = List.length b -> a = b /\ x = y.
Proof.
  revert b; induction a as [|c a IH]; intros [|d b]; simpl;
    try discriminate; intros E L.
  - split; [reflexivity | assumption].
  - injection E as -> E. injection L as L.
    destruct (IH _ E L) as (-> & ->). split; reflexivity.
Qed.

(** A decomposition [s = before ++ sep ++ after] at the leftmost
    occurrence of [sep] is the one [partition] returns. *)
Lemma partition_leftmost (sep before after : str) :
  (forall b a, before ++ sep ++ after = b ++ sep ++ a ->
               (List.length before <= List.length b)%nat) ->
  partition sep (before ++ sep ++ after) = Some (before, after).
Proof.
  intros Hmin.
  destruct (partition sep (before ++ sep ++ after)) as [[b0 a0]|] eqn:P.
  - destruct (partition_Some _ _ _ _ P) as (E & Hmin0).
    assert (L : List.length b0 = List.length before).
    { apply Nat.le_antisymm; [eapply Hmin0; reflexivity | eapply Hmin; exact E]. }
    symmetry in E. destruct (app_same_length _ _ _ _ E L) as (-> & E').
    apply app_inv_head in E'.
    subst; reflexivity.
  - apply partition_None in P.
    assert (T : substring sep (before ++ sep ++ after) = true).
    { clear. induction before as [|c b IH]; simpl.
      - assert (S : startswith sep (sep ++ after) = true)
          by (apply startswith_app; exists after; reflexivity).
        destruct (sep ++ after); simpl; rewrite S; reflexivity.
      - rewrite IH. apply orb_true_r. }
    congruence.
Qed.

Lemma substring_intro (sep a b : str) : substring sep (a ++ sep ++ b) = true.
Proof.
  induction a as [|x a IH].
  - assert (S : startswith sep (sep ++ b) = true)
      by (apply startswith_app; exists b; reflexivity).
    cbn [app]. destruct (sep ++ b); simpl; rewrite S; reflexivity.
  - cbn [app substring]. rewrite IH. apply orb_true_r.
Qed.

Lemma splitlines_from_within (n : nat) :
  forall (s : str) (cur : option str) (pre full : str),
    (List.length s <= n)%nat ->
    full = pre ++ rev (match cur with Some l => l | None => [] end) ++ s ->
    forall line, In line (splitlines_from cur s) ->
                 exists a b, full = a ++ line ++ b.
Proof.
  induction n as [|n IH]; intros s cur pre full L E line I.
  - destruct s; [|simpl in L; lia].
    destruct cur as [l|]; simpl in I; [|contradiction].
    destruct I as [<-|[]]. exists pre, []. exact E.
  - destruct s as [|c t].
    + destruct cur as [l|]; simpl in I; [|contradiction].
      destruct I as [<-|[]]. exists pre, []. exact E.
    + simpl in L. cbn [splitlines_from] in I.
      set (l := match cur with Some l => l | None => [] end) in *.
      destruct (is_linebreak c).
      * destruct I as [<-|I]; [exists pre, (c :: t); exact E|].
        destruct t as [|d t'].
        -- simpl in I. contradiction.
        -- destruct ((c =? 13)%N && (d =? 10)%N).
           ++ apply (IH t' None (pre ++ rev l ++ [c; d]) full);
                [simpl in L; lia | | exact I].
              rewrite E. simpl. rewrite <- !app_assoc. reflexivity.
           ++ apply (IH (d :: t') None (pre ++ rev l ++ [c]) full);
                [simpl in *; lia | | exact I].
              rewrite E. simpl. rewrite <- !app_assoc. reflexivity.
      * apply (IH t (Some (c :: l)) pre full); [lia | | exact I].
        rewrite E. simpl. rewrite <- !app_assoc. reflexivity.
Qed.

(** A line of [splitlines] is a piece of the text. *)
Lemma line_in_text (text line : str) :
  In line (splitlines text) -> substring line text = true.
Proof.
  intros I.
  destruct (splitlines_from_within (List.length text) text None [] text
              (Nat.le_refl _) eq_refl line I) as (a & b & E).
  rewrite E. apply substring_intro.
Qed.

(* ================================================================== *)
(** ** [get_cf_spaces] *)
(* ================================================================== *)

(** C7.  When the text [cf spaces] printed contains ["name\n"],
    [get_cf_spaces] returns the lines of what follows the first
    occurrence of that token: on ["...\nname\nspace-a\nspace-b\n"] it
    returns [["space-a", "space-b"]].  When the token is absent it raises
    the [RuntimeError] that carries the text. *)
Theorem list_spaces_after_header :
  (forall before after : str,
      (forall b a, before ++ (lit "name" ++ nl) ++ after
                   = b ++ (lit "name" ++ nl) ++ a ->
                   (List.length before <= List.length b)%nat) ->
      list_spaces (before ++ (lit "name" ++ nl) ++ after)
      = Ok (splitlines after)) /\
  (forall text : str,
      substring (lit "name" ++ nl) text = true ->
      exists before after,
        text = before ++ (lit "name" ++ nl) ++ after /\
        (forall b a, text = b ++ (lit "name" ++ nl) ++ a ->
                     (List.length before <= List.length b)%nat) /\
        list_spaces text = Ok (splitlines after)) /\
  (forall text : str,
      substring (lit "name" ++ nl) text = false ->
      list_spaces text
      = Raise (RuntimeError (lit "Error retrieving Cloud Foundry spaces:")
                 (Str text))) /\
  list_spaces (lit "..." ++ nl ++ lit "name" ++ nl ++
               lit "space-a" ++ nl ++ lit "space-b" ++ nl)
  = Ok [lit "space-a"; lit "space-b"].
Proof.
  assert (A : forall text before after,
             partition (lit "name" ++ nl) text = Some (before, after) ->
             list_spaces text = Ok (splitlines after)).
  { intros text before after P. unfold list_spaces, contains, split1.
    destruct (substring (lit "name" ++ nl) text) eqn:S.
    - cbn [bind]. rewrite P. reflexivity.
    - apply partition_None in S. congruence. }
  split; [|split; [|split]].
  - intros before after Hmin. eapply A. apply partition_leftmost. exact Hmin.
  - intros text S.
    destruct (partition (lit "name" ++ nl) text) as [[b0 a0]|] eqn:P.
    + destruct (partition_Some _ _ _ _ P) as (E & Hmin).
      exists b0, a0. split; [exact E|]. split; [exact Hmin|].
      eapply A; exact P.
    + apply partition_None in P. congruence.
  - intros text S. unfold list_spaces, contains. rewrite S. reflexivity.
  - vm_compute. reflexivity.
Qed.

Lemma list_spaces_after_header_witness :
  list_spaces (lit "name" ++ nl ++ lit "dev" ++ nl ++ lit "name" ++ nl ++
               lit "prod" ++ nl)
  = Ok [lit "dev"; lit "name"; lit "prod"] /\
  list_spaces (lit "FAILED" ++ nl)
  = Raise (RuntimeError (lit "Error retrieving Cloud Foundry spaces:")
             (Str (lit "FAILED" ++ nl))).
Proof.
  destruct list_spaces_after_header as (First & Some & Absent & _).
  split.
  - apply (First [] (lit "dev" ++ nl ++ lit "name" ++ nl ++ lit "prod" ++ nl)).
    intros b a _. simpl. lia.
  - apply (Absent (lit "FAILED" ++ nl)). reflexivity.
Defined.

(* ================================================================== *)
(** ** [get_active_instances]: markers and errors *)
(* ================================================================== *)

Section ActiveInstances.

Context {host : Host}.

(** C2, as the code has it.  When one of the lines [cf apps] printed is
    exactly ["No apps found"], [get_active_instances] returns 0, whatever
    the other lines are.  The test is made on the list of lines, so the
    marker inside a longer line does not count. *)
Theorem no_apps_line_gives_zero (text : str) :
  In (lit "No apps found") (splitlines text) ->
  count_active_instances text = Ok 0%Z.
Proof.
  intros H. unfold count_active_instances, contains.
  apply member_In in H. rewrite H. reflexivity.
Qed.

(** C3.  Without a ["No apps found"] line: a listing of three lines or
    more whose third line does not start with ["name"] raises the
    [RuntimeError] that carries the lines; a listing of fewer than three
    lines raises [IndexError] instead, at [apps_output[2]]. *)
Theorem unexpected_apps_output (text : str) :
  ~ In (lit "No apps found") (splitlines text) ->
  (forall third,
      nth_error (splitlines text) 2 = Some third ->
      startswith (lit "name") third = false ->
      count_active_instances text
      = Raise (RuntimeError (lit "Error retrieving applications data")
                 (List (splitlines text)))) /\
  ((List.length (splitlines text) < 3)%nat ->
   count_active_instances text = Raise IndexError).
Proof.
  intros H. apply not_member_In in H.
  unfold count_active_instances, contains. rewrite H. cbn [bind].
  unfold getitem. split.
  - intros third N S. rewrite N. cbn [bind]. rewrite S. reflexivity.
  - intros L. assert (N : nth_error (splitlines text) 2 = None)
      by (apply nth_error_None; lia).
    rewrite N. reflexivity.
Qed.

End ActiveInstances.

(** C2, as the claim has it, fails: the marker inside a longer line of a
    table does not stop the count. *)
Lemma no_apps_substring_counterexample :
  let text := lit "Getting apps in org acme / space dev as dev..." ++ nl ++
              lit "OK" ++ nl ++
              lit "name      requested state   instances" ++ nl ++
              lit "probe     started           web:3/5   No apps found" ++ nl in
  substring (lit "No apps found") text = true /\
  @count_active_instances Sim.host text = Ok 3%Z.
Proof. vm_compute. split; reflexivity. Qed.

Lemma no_apps_line_gives_zero_witness :
  @count_active_instances Sim.host
    (Sim.no_apps ++ lit "probe   started   web:3/5" ++ nl) = Ok 0%Z.
Proof.
  apply (@no_apps_line_gives_zero Sim.host).
  vm_compute. right; right; right; left. reflexivity.
Defined.

Lemma unexpected_apps_output_witness :
  @count_active_instances Sim.host (lit "FAILED" ++ nl) = Raise IndexError /\
  @count_active_instances Sim.host
    (lit "FAILED" ++ nl ++ lit "Not logged in." ++ nl ++ lit "Use cf login" ++ nl)
  = Raise (RuntimeError (lit "Error retrieving applications data")
             (List [lit "FAILED"; lit "Not logged in."; lit "Use cf login"])).
Proof.
  split.
  - apply (@unexpected_apps_output Sim.host (lit "FAILED" ++ nl)).
    + vm_compute. intros [[=]|[]].
    + vm_compute. lia.
  - apply (proj1 (@unexpected_apps_output Sim.host
             (lit "FAILED" ++ nl ++ lit "Not logged in." ++ nl ++
              lit "Use cf login" ++ nl)
             ltac:(vm_compute; intros [[=]|[[=]|[[=]|[]]]]))
             (lit "Use cf login")); reflexivity.
Defined.

(* ================================================================== *)
(** ** [get_services] *)
(* ================================================================== *)

Lemma count_nonempty (lines : list str) (n : Z) :
  fold_left (fun services svs => if truthy svs then (services + 1)%Z else services)
            lines n
  = (n + Z.of_nat (List.length (filter truthy lines)))%Z.
Proof.
  revert n; induction lines as [|l lines IH]; intros n; simpl; [lia|].
  rewrite IH. destruct (truthy l); simpl; lia.
Qed.

(** C10.  When no line of the text is exactly ["No services found"] and
    fewer than two lines are non-empty, [get_services] returns a negative
    number; on the empty text it returns -2. *)
Theorem count_services_negative :
  (forall text : str,
      ~ In (lit "No services found") (splitlines text) ->
      (List.length (filter truthy (splitlines text)) < 2)%nat ->
      exists n, count_services text = Ok n /\ (n < 0)%Z) /\
  count_services [] = Ok (-2)%Z.
Proof.
  split; [|reflexivity].
  intros text H L. apply not_member_In in H.
  unfold count_services, contains. rewrite H. cbn [bind].
  rewrite count_nonempty. eexists. split; [reflexivity | lia].
Qed.

Lemma count_services_negative_witness :
  exists n, count_services (lit "FAILED" ++ nl) = Ok n /\ (n < 0)%Z.
Proof.
  apply (proj1 count_services_negative (lit "FAILED" ++ nl)).
  - vm_compute. intros [[=]|[]].
  - vm_compute. lia.
Defined.

(* ================================================================== *)
(** ** [login_cf] *)
(* ================================================================== *)

(** C4.  [login_cf] raises [TypeError] on every call, whatever the [cf]
    client answers: the [in] test is made on the bound method
    [pipe.read], not on text.  It never succeeds and never raises
    [RuntimeError]. *)
Theorem login_cf_raises_TypeError {host : Host}
  (cf_api cf_user cf_pwd cf_org cf_space : str) (st : state) :
  fst (login_cf cf_api cf_user cf_pwd cf_org cf_space st) = Raise TypeError.
Proof.
  unfold login_cf, bindM, popen, lift.
  destruct (popen_read _ (world st)). reflexivity.
Qed.

(** A login the client accepts: its answer has the marker, and [login_cf]
    raises [TypeError] all the same. *)
Example login_cf_accepted_login :
  let login := lit "cf login -a https://api.example.org, -u dev, -p secret, -o acme, -s dev" in
  substring (lit "API endpoint:") (fst (Sim.cf login (world (Sim.start []))))
  = true /\
  fst (@login_cf Sim.host (lit "https://api.example.org") (lit "dev")
         (lit "secret") (lit "acme") (lit "dev") (Sim.start []))
  = Raise TypeError.
Proof. vm_compute. split; reflexivity. Qed.

(* ================================================================== *)
(** ** [main]: the total of a run *)
(* ================================================================== *)

Section Runs.

Context {host : Host}.

Local Open Scope run_scope.

Lemma bindM_Ok {A B} (m : M A) (k : A -> M B) (st st' : state) (b : B) :
  bindM m k st = (Ok b, st') ->
  exists a st1, m st = (Ok a, st1) /\ k a st1 = (Ok b, st').
Proof.
  unfold bindM. destruct (m st) as [[a|e] st1]; [|discriminate].
  intros H. exists a, st1. split; [reflexivity | assumption].
Qed.

Lemma lift_Ok {A} (r : result A) (st st' : state) (a : A) :
  lift r st = (Ok a, st') -> r = Ok a /\ st' = st.
Proof. unfold lift. intros [= -> ->]. split; reflexivity. Qed.

Lemma popen_calls (cmd out : str) (st st' : state) :
  popen cmd st = (Ok out, st') -> calls st' = calls st.
Proof.
  unfold popen. destruct (popen_read cmd (world st)).
  intros [= _ <-]. reflexivity.
Qed.

Lemma switch_to_cf_space_calls (name : str) (st st' : state) :
  switch_to_cf_space name st = (Ok tt, st') -> calls st' = calls st.
Proof.
  unfold switch_to_cf_space. intros H.
  apply bindM_Ok in H. destruct H as (out & st1 & P & H).
  apply bindM_Ok in H. destruct H as (found & st2 & L & H).
  apply lift_Ok in L. destruct L as (_ & ->).
  apply popen_calls in P. rewrite <- P.
  destruct found; [injection H as <-; reflexivity | discriminate].
Qed.

Lemma get_active_instances_calls (n : Z) (st st' : state) :
  get_active_instances st = (Ok n, st') ->
  calls st' = calls st ++ [Instances n].
Proof.
  unfold get_active_instances. intros H.
  apply bindM_Ok in H. destruct H as (out & st1 & P & H).
  apply bindM_Ok in H. destruct H as (k & st2 & L & H).
  apply lift_Ok in L. destruct L as (_ & ->).
  apply popen_calls in P. rewrite <- P.
  unfold bindM, record, ret in H. injection H as <- <-. reflexivity.
Qed.

(** A report that returns has recorded its arguments, and nothing else. *)
Lemma print_footprint_calls (args : Args) (name : str) (n : Z)
  (st st' : state) :
  print_footprint args name n st = (Ok tt, st') ->
  calls st' = calls st ++ [Report name n].
Proof.
  unfold print_footprint. intros H.
  apply bindM_Ok in H. destruct H as ([] & st1 & R & H).
  unfold record in R. injection R as <-.
  assert (K : forall (r : result Float64.float) (u : string) st2,
             (value <- lift r ;;
              rounded <- lift (Float64.round value) ;;
              print (report_line (label name) rounded u)) st2 = (Ok tt, st') ->
             calls st' = calls st2).
  { intros r u st2 K.
    apply bindM_Ok in K. destruct K as (v & st3 & L & K).
    apply lift_Ok in L. destruct L as (_ & ->).
    apply bindM_Ok in K. destruct K as (z & st4 & L & K).
    apply lift_Ok in L. destruct L as (_ & ->).
    unfold print in K. injection K as <-. reflexivity. }
  destruct (given (carbon args)) as [c|].
  - apply bindM_Ok in H. destruct H as (k & st2 & L & H).
    apply lift_Ok in L. destruct L as (_ & ->).
    apply K in H. exact H.
  - destruct (year args); apply K in H; exact H.
Qed.

(** The loop adds to the running total what it measured. *)
Lemma each_space_total (args : Args) (spaces : list str) :
  forall (total total' : Z) (st st' : state),
    each_space args spaces total st = (Ok total', st') ->
    exists counts,
      List.length counts = List.length spaces /\
      total' = (total + sum counts)%Z /\
      calls st' = calls st ++ visits spaces counts.
Proof.
  induction spaces as [|name rest IH]; intros total total' st st' H.
  - injection H as <- <-. exists []. simpl.
    rewrite app_nil_r. repeat split; lia.
  - cbn [each_space] in H.
    apply bindM_Ok in H. destruct H as ([] & st1 & S & H).
    apply bindM_Ok in H. destruct H as (n & st2 & G & H).
    apply bindM_Ok in H. destruct H as ([] & st3 & P & H).
    apply switch_to_cf_space_calls in S.
    apply get_active_instances_calls in G.
    apply print_footprint_calls in P.
    destruct (IH _ _ _ _ H) as (counts & L & T & C).
    exists (n :: counts). split; [simpl; congruence|].
    split; [simpl; lia|].
    rewrite C, P, G, S. unfold visits. simpl.
    rewrite <- !app_assoc. reflexivity.
Qed.

(** C1.  In all-spaces mode, once the loop over the spaces has run, the
    count [main] passes to the final [TOTAL] report is the sum of the
    counts [get_active_instances] returned for the spaces, in the order of
    the listing; a run that completes has made exactly these calls. *)
Theorem total_report_is_sum (args : Args) (st : state) :
  given (space args) = None ->
  (forall spaces st0 total st1,
      get_cf_spaces st = (Ok spaces, st0) ->
      each_space args spaces 0 st0 = (Ok total, st1) ->
      exists counts,
        List.length counts = List.length spaces /\
        calls st1 = calls st ++ visits spaces counts /\
        total = sum counts /\
        main args st = print_footprint args TOTAL (sum counts) st1) /\
  (forall st',
      main args st = (Ok tt, st') ->
      exists spaces counts,
        fst (get_cf_spaces st) = Ok spaces /\
        List.length counts = List.length spaces /\
        calls st' = calls st ++ visits spaces counts ++
                    [Report TOTAL (sum counts)]).
Proof.
  intros Mode.
  assert (G : forall spaces st0,
             get_cf_spaces st = (Ok spaces, st0) -> calls st0 = calls st).
  { intros spaces st0 H. unfold get_cf_spaces in H.
    apply bindM_Ok in H. destruct H as (out & st1 & P & L).
    apply lift_Ok in L. destruct L as (_ & ->).
    eapply popen_calls; exact P. }
  split.
  - intros spaces st0 total st1 S E.
    destruct (each_space_total _ _ _ _ _ _ E) as (counts & L & T & C).
    exists counts. rewrite (G _ _ S) in C. simpl in T.
    repeat split; try assumption.
    unfold main. rewrite Mode. unfold bindM at 1. rewrite S.
    unfold bindM at 1. rewrite E. subst total. reflexivity.
  - intros st' H. unfold main in H. rewrite Mode in H.
    apply bindM_Ok in H. destruct H as (spaces & st0 & S & H).
    apply bindM_Ok in H. destruct H as (total & st1 & E & P).
    destruct (each_space_total _ _ _ _ _ _ E) as (counts & L & T & C).
    apply print_footprint_calls in P.
    exists spaces, counts. rewrite S. split; [reflexivity|].
    split; [assumption|].
    rewrite P, C, (G _ _ S). simpl in T. subst total.
    rewrite <- app_assoc. reflexivity.
Qed.

End Runs.

Lemma total_report_is_sum_witness :
  exists spaces counts,
    fst (get_cf_spaces (Sim.start Sim.two_spaces)) = Ok spaces /\
    List.length counts = List.length spaces /\
    calls (snd (main no_flags (Sim.start Sim.two_spaces)))
    = calls (Sim.start Sim.two_spaces) ++ visits spaces counts ++
      [Report TOTAL (sum counts)].
Proof.
  apply (proj2 (@total_report_is_sum Sim.host no_flags
                  (Sim.start Sim.two_spaces) eq_refl)).
  vm_compute. reflexivity.
Defined.

(** The run of the scenario: 10 and 55 instances make 65, one server. *)
Example two_spaces_run :
  fst (main no_flags (Sim.start Sim.two_spaces)) = Ok tt /\
  stdout (snd (main no_flags (Sim.start Sim.two_spaces)))
  = [lit "Space space-a: 62 Watt"; lit "Space space-b: 338 Watt";
     lit "TOTAL: 400 Watt"] /\
  calls (snd (main no_flags (Sim.start Sim.two_spaces)))
  = [Instances 10; Report (lit "space-a") 10;
     Instances 55; Report (lit "space-b") 55; Report TOTAL 65].
Proof. vm_compute. repeat split; reflexivity. Qed.

(* ================================================================== *)
(** ** The pattern matcher *)
(* ================================================================== *)

Lemma match_here_star (k : Re.cls) (p : Re.pattern) (opened : bool)
  (grp s : str) :
  Re.match_here (Re.Atom k Re.Star :: p) opened grp s =
  match s with
  | c :: s' =>
      if Re.cls_match k c then
        match Re.match_here (Re.Atom k Re.Star :: p) opened
                (Re.push opened c grp) s' with
        | Some g => Some g
        | None => Re.match_here p opened grp s
        end
      else Re.match_here p opened grp s
  | [] => Re.match_here p opened grp s
  end.
Proof. destruct s; reflexivity. Qed.

(** A match found is a match of the pattern. *)
Lemma match_here_sound (p : Re.pattern) :
  forall opened grp s g,
    Re.match_here p opened grp s = Some g ->
    exists w rest grp',
      s = w ++ rest /\ Re.derives p opened grp w grp' /\ g = rev grp'.
Proof.
  induction p as [|[k [| |]| |] p IH]; intros opened grp s g H.
  - injection H as <-. exists [], s, grp. repeat split. constructor.
  - (* One *)
    simpl in H. destruct s as [|c s]; [discriminate|].
    destruct (Re.cls_match k c) eqn:K; [|discriminate].
    destruct (IH _ _ _ _ H) as (w & rest & grp' & -> & D & ->).
    exists (c :: w), rest, grp'. repeat split. constructor; assumption.
  - (* Opt *)
    assert (Skip : Re.match_here p opened grp s = Some g ->
                   exists w rest grp',
                     s = w ++ rest /\
                     Re.derives (Re.Atom k Re.Opt :: p) opened grp w grp' /\
                     g = rev grp').
    { intros S. destruct (IH _ _ _ _ S) as (w & rest & grp' & -> & D & ->).
      exists w, rest, grp'. repeat split. apply Re.D_opt_skip; assumption. }
    simpl in H. destruct s as [|c s]; [auto|].
    destruct (Re.cls_match k c) eqn:K; [|auto].
    destruct (Re.match_here p opened (Re.push opened c grp) s) eqn:T; [|auto].
    injection H as ->.
    destruct (IH _ _ _ _ T) as (w & rest & grp' & -> & D & ->).
    exists (c :: w), rest, grp'. repeat split.
    apply Re.D_opt_take; assumption.
  - (* Star *)
    revert grp g H. induction s as [|c s IHs]; intros grp g H;
      rewrite match_here_star in H.
    + destruct (IH _ _ _ _ H) as (w & rest & grp' & E & D & ->).
      exists w, rest, grp'. repeat split; [assumption|].
      apply Re.D_star_skip; assumption.
    + assert (Skip : Re.match_here p opened grp (c :: s) = Some g ->
                     exists w rest grp',
                       c :: s = w ++ rest /\
                       Re.derives (Re.Atom k Re.Star :: p) opened grp w grp' /\
                       g = rev grp').
      { intros S. destruct (IH _ _ _ _ S) as (w & rest & grp' & E & D & ->).
        exists w, rest, grp'. repeat split; [assumption|].
        apply Re.D_star_skip; assumption. }
      destruct (Re.cls_match k c) eqn:K; [|auto].
      destruct (Re.match_here (Re.Atom k Re.Star :: p) opened
                  (Re.push opened c grp) s) eqn:T; [|auto].
      injection H as ->.
      destruct (IHs _ _ T) as (w & rest & grp' & -> & D & ->).
      exists (c :: w), rest, grp'. repeat split.
      apply Re.D_star_take; assumption.
  - (* Open *)
    simpl in H. destruct (IH _ _ _ _ H) as (w & rest & grp' & -> & D & ->).
    exists w, rest, grp'. repeat split. constructor; assumption.
  - (* Close *)
    simpl in H. destruct (IH _ _ _ _ H) as (w & rest & grp' & -> & D & ->).
    exists w, rest, grp'. repeat split. constructor; assumption.
Qed.

(** Where the pattern can match, a match is found. *)
Lemma match_here_complete (p : Re.pattern) (opened : bool) (grp w grp' : str) :
  Re.derives p opened grp w grp' ->
  forall rest, exists g, Re.match_here p opened grp (w ++ rest) = Some g.
Proof.
  induction 1 as [opened grp
                 | p opened grp w grp' D IH
                 | p opened grp w grp' D IH
                 | k p opened grp c w grp' K D IH
                 | k p opened grp c w grp' K D IH
                 | k p opened grp w grp' D IH
                 | k p opened grp c w grp' K D IH
                 | k p opened grp w grp' D IH]; intros rest.
  - eexists; reflexivity.
  - apply IH.
  - apply IH.
  - simpl. rewrite K. apply IH.
  - simpl. rewrite K. destruct (IH rest) as (g & ->). eexists; reflexivity.
  - destruct (IH rest) as (g & E). simpl. rewrite E.
    destruct (w ++ rest) as [|c s]; [eexists; reflexivity|].
    destruct (Re.cls_match k c); [|eexists; reflexivity].
    destruct (Re.match_here p opened (Re.push opened c grp) s);
      eexists; reflexivity.
  - rewrite <- app_comm_cons, match_here_star, K.
    destruct (IH rest) as (g & ->). eexists; reflexivity.
  - destruct (IH rest) as (g & E). rewrite match_here_star, E.
    destruct (w ++ rest) as [|c s]; [eexists; reflexivity|].
    destruct (Re.cls_match k c); [|eexists; reflexivity].
    destruct (Re.match_here (Re.Atom k Re.Star :: p) opened
                (Re.push opened c grp) s); eexists; reflexivity.
Qed.

(** [search] returns the match at the leftmost position that has one. *)
Lemma search_Some (p : Re.pattern) (s g : str) :
  Re.search p s = Some g ->
  exists before rest,
    s = before ++ rest /\
    Re.match_here p false [] rest = Some g /\
    forall b r, s = b ++ r -> (List.length b < List.length before)%nat ->
                Re.match_here p false [] r = None.
Proof.
  induction s as [|c s IH]; simpl.
  - destruct (Re.match_here p false [] []) eqn:E; [|discriminate].
    intros [= ->]. exists [], []. repeat split; [assumption|].
    simpl; intros; lia.
  - destruct (Re.match_here p false [] (c :: s)) eqn:E.
    + intros [= ->]. exists [], (c :: s). repeat split; [assumption|].
      simpl; intros; lia.
    + intros H. destruct (IH H) as (before & rest & -> & M & Hmin).
      exists (c :: before), rest. repeat split; [assumption|].
      intros [|x b] r Hs L.
      * simpl in Hs. subst r. assumption.
      * simpl in Hs. injection Hs as -> Hs. simpl in L.
        apply (Hmin b r Hs). lia.
Qed.

Lemma search_None (p : Re.pattern) (s : str) :
  Re.search p s = None ->
  forall b r, s = b ++ r -> Re.match_here p false [] r = None.
Proof.
  induction s as [|c s IH]; simpl.
  - destruct (Re.match_here p false [] []) eqn:E; [discriminate|].
    intros _ b r Hs. symmetry in Hs. apply app_eq_nil in Hs.
    destruct Hs as (_ & ->). assumption.
  - destruct (Re.match_here p false [] (c :: s)) eqn:E; [discriminate|].
    intros H [|x b] r Hs.
    + simpl in Hs. subst r. assumption.
    + simpl in Hs. injection Hs as -> Hs. apply (IH H b r Hs).
Qed.

Lemma derives_star_inv (k : Re.cls) (p : Re.pattern) (grp w grp' : str) :
  Re.derives (Re.Atom k Re.Star :: p) false grp w grp' ->
  exists ws w',
    w = ws ++ w' /\ Forall (fun c => Re.cls_match k c = true) ws /\
    Re.derives p false grp w' grp'.
Proof.
  remember (Re.Atom k Re.Star :: p) as q eqn:Q.
  remember false as opened eqn:O.
  induction 1; try discriminate.
  - injection Q as -> ->. subst opened. simpl in *.
    destruct (IHderives eq_refl eq_refl) as (ws & w' & -> & F & D).
    exists (c :: ws), w'. repeat split; [|assumption].
    constructor; assumption.
  - injection Q as -> ->. subst opened.
    exists [], w. repeat split; [constructor | assumption].
Qed.

Lemma derives_star_intro (k : Re.cls) (p : Re.pattern) (grp ws w grp' : str) :
  Forall (fun c => Re.cls_match k c = true) ws ->
  Re.derives p false grp w grp' ->
  Re.derives (Re.Atom k Re.Star :: p) false grp (ws ++ w) grp'.
Proof.
  induction 1 as [|c ws K F IH]; intros D; simpl.
  - apply Re.D_star_skip; assumption.
  - apply Re.D_star_take; [assumption | apply IH; assumption].
Qed.

Ltac invert_derives :=
  repeat match goal with
    | H : Re.derives [] _ _ _ _ |- _ => inversion H; clear H; subst
    | H : Re.derives (Re.Open :: _) _ _ _ _ |- _ => inversion H; clear H; subst
    | H : Re.derives (Re.Close :: _) _ _ _ _ |- _ => inversion H; clear H; subst
    | H : Re.derives (Re.Atom _ Re.One :: _) _ _ _ _ |- _ =>
        inversion H; clear H; subst
    | H : Re.derives (Re.Atom _ Re.Opt :: _) _ _ _ _ |- _ =>
        inversion H; clear H; subst
    | H : Re.cls_match (Re.Chr ?x) ?c = true |- _ =>
        change ((x =? c)%N = true) in H; apply N.eqb_eq in H; subst
    | H : Re.cls_match Re.Digit ?c = true |- _ =>
        change (isdigit c = true) in H
    | H : Re.cls_match Re.Space ?c = true |- _ =>
        change (isspace c = true) in H
    end.

Lemma started_web_explicit :
  started_web = ltac:(let p := eval vm_compute in started_web in exact p).
Proof. reflexivity. Qed.

(** What the pattern of [get_active_instances] matches, and captures. *)
Lemma started_web_derives (w grp' : str) :
  Re.derives started_web false [] w grp' ->
  exists c ws running requested,
    isspace c = true /\
    Forall (fun x => isspace x = true) ws /\
    one_or_two_digits running /\
    one_or_two_digits requested /\
    w = [c] ++ lit "started" ++ ws ++ lit "web:" ++ running ++ lit "/" ++
        requested /\
    rev grp' = running.
Proof.
  rewrite started_web_explicit. intros H.
  invert_derives.
  match goal with
  | H : Re.derives (Re.Atom _ Re.Star :: _) _ _ _ _ |- _ =>
      apply derives_star_inv in H; destruct H as (ws & w' & -> & F & H)
  end.
  invert_derives;
    (do 4 eexists;
     (refine (conj _ (conj _ (conj _ (conj _ (conj _ _)))));
      [eassumption | exact F | | | | simpl; reflexivity]);
     [ | | simpl; reflexivity];
     (split; [simpl; auto | repeat constructor; assumption])).
Qed.

Lemma entry_at_derives (s running : str) :
  entry_at s running ->
  exists w rest grp',
    s = w ++ rest /\ Re.derives started_web false [] w grp'.
Proof.
  intros (c & ws & requested & rest & C & W & (Lr & Dr) & (Lq & Dq) & ->).
  assert (Two : forall d : str,
             (List.length d = 1 \/ List.length d = 2)%nat ->
             (exists a, d = [a]) \/ (exists a b, d = [a; b])).
  { intros [|a [|b [|? ?]]] [L|L]; try discriminate L; eauto. }
  destruct (Two _ Lq) as [(q1 & ->)|(q1 & q2 & ->)];
    apply Forall_inv in Dq;
    (destruct (Two _ Lr) as [(r1 & ->)|(r1 & r2 & ->)];
     [apply Forall_inv in Dr
     |pose proof (Forall_inv Dr) as Dr1;
      pose proof (Forall_inv (Forall_inv_tail Dr)) as Dr2]);
    match goal with
    | |- context [?r ++ lit "/" ++ ?q ++ rest] =>
        exists ([c] ++ lit "started" ++ ws ++
                (lit "web:" ++ r ++ lit "/" ++ [q1])), (tl q ++ rest)
    end;
    (eexists; split; [simpl; rewrite <- app_assoc; reflexivity|]);
    rewrite started_web_explicit;
    simpl;
    (apply Re.D_one; [exact C|]);
    do 7 (apply Re.D_one; [reflexivity|]);
    (apply derives_star_intro; [exact W|]);
    do 4 (apply Re.D_one; [reflexivity|]);
    apply Re.D_open.
  - apply Re.D_opt_skip. apply Re.D_one; [exact Dr|]. apply Re.D_close.
    apply Re.D_one; [reflexivity|]. apply Re.D_opt_skip.
    apply Re.D_one; [exact Dq|]. apply Re.D_end.
  - apply Re.D_opt_take; [exact Dr1|]. apply Re.D_one; [exact Dr2|].
    apply Re.D_close.
    apply Re.D_one; [reflexivity|]. apply Re.D_opt_skip.
    apply Re.D_one; [exact Dq|]. apply Re.D_end.
  - apply Re.D_opt_skip. apply Re.D_one; [exact Dr|]. apply Re.D_close.
    apply Re.D_one; [reflexivity|]. apply Re.D_opt_skip.
    apply Re.D_one; [exact Dq|]. apply Re.D_end.
  - apply Re.D_opt_take; [exact Dr1|]. apply Re.D_one; [exact Dr2|].
    apply Re.D_close.
    apply Re.D_one; [reflexivity|]. apply Re.D_opt_skip.
    apply Re.D_one; [exact Dq|]. apply Re.D_end.
Qed.

(** Whitespace ends at [web:], and the first number ends at the slash:
    an entry at a given place has one first number. *)
Lemma entry_at_unique (s r r' : str) :
  entry_at s r -> entry_at s r' -> r = r'.
Proof.
  intros (c & ws & q & rest & _ & W & (Lr & Dr) & _ & E)
         (c' & ws' & q' & rest' & _ & W' & (Lr' & Dr') & _ & E').
  rewrite E in E'. clear E. simpl in E'.
  injection E' as _ E'.
  assert (S : ws = ws' /\ r ++ lit "/" ++ q ++ rest = r' ++ lit "/" ++ q' ++ rest').
  { clear - W W' E'. revert ws' W' E'.
    induction W as [|x ws X W IH]; intros ws' W' E'.
    - destruct W' as [|y ws' Y W'].
      + simpl in E'. injection E' as E'. split; [reflexivity | assumption].
      + simpl in E'. injection E' as <- _. discriminate Y.
    - destruct W' as [|y ws' Y W'].
      + simpl in E'. injection E' as -> _. discriminate X.
      + simpl in E'. injection E' as -> E'.
        destruct (IH _ W' E') as (-> & R). split; [reflexivity | assumption]. }
  destruct S as (_ & S). clear - S Lr Dr Lr' Dr'.
  destruct r as [|a [|b [|? ?]]]; destruct Lr as [Lr|Lr]; try discriminate Lr;
    destruct r' as [|a' [|b' [|? ?]]]; destruct Lr' as [Lr'|Lr'];
    try discriminate Lr'; simpl in S.
  - injection S as -> _. reflexivity.
  - injection S as -> <- _.
    apply Forall_inv_tail, Forall_inv in Dr'. discriminate Dr'.
  - injection S as -> -> _.
    apply Forall_inv_tail, Forall_inv in Dr. discriminate Dr.
  - injection S as -> -> _. reflexivity.
Qed.

Lemma match_here_entry (s g : str) :
  Re.match_here started_web false [] s = Some g -> entry_at s g.
Proof.
  intros H. apply match_here_sound in H.
  destruct H as (w & rest & grp' & -> & D & ->).
  apply started_web_derives in D.
  destruct D as (c & ws & running & requested & C & W & R & Q & -> & <-).
  exists c, ws, requested, rest. repeat split; try assumption; try apply R;
    try apply Q.
  rewrite <- !app_assoc. reflexivity.
Qed.

Lemma entry_match_here (s r : str) :
  entry_at s r -> Re.match_here started_web false [] s = Some r.
Proof.
  intros E. destruct (entry_at_derives _ _ E) as (w & rest & grp' & -> & D).
  destruct (match_here_complete _ _ _ _ _ D rest) as (g & M).
  rewrite M. f_equal. eapply entry_at_unique; [|exact E].
  apply match_here_entry; assumption.
Qed.

(** [re.search] with the pattern of the script computes the number a
    line stands for. *)
Lemma search_line_instances (line : str) :
  match Re.search started_web line with
  | Some g =>
      one_or_two_digits g /\ line_instances line (digits_value g)
  | None => line_instances line 0
  end.
Proof.
  destruct (Re.search started_web line) as [g|] eqn:S.
  - apply search_Some in S. destruct S as (before & rest & -> & M & Hmin).
    pose proof (match_here_entry _ _ M) as E. split.
    + destruct E as (_ & _ & _ & _ & _ & _ & R & _). exact R.
    + left. exists before, g. split; [exists rest; split; [reflexivity|exact E]|].
      split; [|reflexivity].
      intros b r (s & Hs & Es).
      destruct (Nat.le_gt_cases (List.length before) (List.length b)) as [L|L];
        [exact L|].
      apply entry_match_here in Es. rewrite (Hmin b s Hs L) in Es. discriminate.
  - right. split; [|reflexivity].
    intros b r (s & Hs & Es). apply entry_match_here in Es.
    rewrite (search_None _ _ S b s Hs) in Es. discriminate.
Qed.

Lemma line_instances_functional (line : str) (n m : Z) :
  line_instances line n -> line_instances line m -> n = m.
Proof.
  intros [(b & r & E & Hmin & ->)|(No & ->)]
         [(b' & r' & E' & Hmin' & ->)|(No' & ->)].
  - assert (L : List.length b = List.length b')
      by (apply Nat.le_antisymm; [eapply Hmin | eapply Hmin']; eassumption).
    destruct E as (s & Hs & Es), E' as (s' & Hs' & Es').
    rewrite Hs in Hs'. destruct (app_same_length _ _ _ _ Hs' L) as (_ & <-).
    f_equal. eapply entry_at_unique; eassumption.
  - exfalso. eapply No'; eassumption.
  - exfalso. eapply No; eassumption.
  - reflexivity.
Qed.

(* ================================================================== *)
(** ** [get_active_instances]: the count *)
(* ================================================================== *)

Section Counting.

Context {host : Host}.

(** [int()] on the captured group. *)
Lemma py_int_group (g : str) :
  one_or_two_digits g -> py_int g = Ok (digits_value g).
Proof.
  intros (L & D). unfold py_int, plain_decimal.
  assert (T : truthy g = true) by (destruct g; [destruct L; discriminate|reflexivity]).
  assert (F : forallb isdigit g = true) by (apply forallb_forall, Forall_forall, D).
  assert (B : (List.length g <=? 640)%nat = true)
    by (apply Nat.leb_le; destruct L as [-> | ->]; lia).
  rewrite T, F, B. reflexivity.
Qed.

Lemma count_started_sum (lines : list str) (ns : list Z) :
  Forall2 line_instances lines ns ->
  forall instances, count_started lines instances = Ok (instances + sum ns)%Z.
Proof.
  induction 1 as [|line n lines ns Hn _ IH]; intros instances; simpl.
  - f_equal; lia.
  - pose proof (search_line_instances line) as S.
    destruct (Re.search started_web line) as [g|].
    + destruct S as (D & Hg). rewrite (py_int_group _ D). cbn [bind].
      rewrite IH. rewrite (line_instances_functional _ _ _ Hn Hg).
      f_equal; lia.
    + rewrite IH. rewrite (line_instances_functional _ _ _ Hn S).
      f_equal; lia.
Qed.

Lemma line_instances_total (lines : list str) :
  exists ns, Forall2 line_instances lines ns.
Proof.
  induction lines as [|line lines (ns & IH)].
  - exists []. constructor.
  - pose proof (search_line_instances line) as S.
    destruct (Re.search started_web line) as [g|].
    + exists (digits_value g :: ns). constructor; [apply S | assumption].
    + exists (0%Z :: ns). constructor; assumption.
Qed.

(** With no line ["No apps found"] and a third line that starts with
    ["name"], the count is the sum of what the lines stand for. *)
Lemma count_active_instances_sum (text third : str) :
  ~ In (lit "No apps found") (splitlines text) ->
  nth_error (splitlines text) 2 = Some third ->
  startswith (lit "name") third = true ->
  forall ns,
    Forall2 line_instances (splitlines text) ns ->
    count_active_instances text = Ok (sum ns).
Proof.
  intros No N S ns F. unfold count_active_instances, contains.
  apply not_member_In in No. rewrite No. cbn [bind]. unfold getitem.
  rewrite N. cbn [bind]. rewrite S.
  rewrite (count_started_sum _ _ F). reflexivity.
Qed.

(** C5.  For an apps table, that is a text without ["No apps found"]
    whose third line starts with ["name"], every line stands for the
    first number of its leftmost entry (whitespace, [started], optional
    whitespace, [web:], one or two digits, a slash, one or two digits)
    or for 0 when it has no entry, and [get_active_instances] returns the
    sum of these numbers.  On a table with the rows
    ["myapp   started web:2/3 ..."] and ["otherapp   started web:0/1 ..."]
    and a stopped application it returns 2. *)
Theorem started_instances_are_summed :
  (forall text third : str,
      substring (lit "No apps found") text = false ->
      nth_error (splitlines text) 2 = Some third ->
      startswith (lit "name") third = true ->
      (exists ns, Forall2 line_instances (splitlines text) ns) /\
      (forall ns,
          Forall2 line_instances (splitlines text) ns ->
          count_active_instances text = Ok (sum ns))) /\
  count_active_instances
    (Sim.apps_table ["myapp   started web:2/3 ..."%string;
                     "otherapp   started web:0/1 ..."%string;
                     "oldapp   stopped web:0/1 ..."%string])
  = Ok 2%Z.
Proof.
  split; [|vm_compute; reflexivity].
  intros text third No N S. split; [apply line_instances_total|].
  apply (count_active_instances_sum text third); [|exact N | exact S].
  intros I. apply line_in_text in I. congruence.
Qed.

End Counting.

Lemma started_instances_are_summed_witness :
  exists ns,
    Forall2 line_instances
      (splitlines (Sim.apps_table ["myapp   started web:12/12 ..."%string])) ns /\
    @count_active_instances Sim.host
      (Sim.apps_table ["myapp   started web:12/12 ..."%string])
    = Ok (sum ns).
Proof.
  destruct (proj1 (@started_instances_are_summed Sim.host)
              (Sim.apps_table ["myapp   started web:12/12 ..."%string])
              (lit "name       requested state   instances   memory   disk   urls"))
    as ((ns & F) & S).
  - vm_compute. reflexivity.
  - reflexivity.
  - reflexivity.
  - exists ns. split; [exact F | exact (S ns F)].
Defined.

(* ================================================================== *)
(** ** Rounding *)
(* ================================================================== *)

Import Float64.
Local Open Scope Q_scope.

Lemma two_to_pos (k : Z) : 0 < two_to k.
Proof. apply Qpower_0_lt. reflexivity. Qed.

Lemma two_to_add (a b : Z) : two_to (a + b) == two_to a * two_to b.
Proof. apply Qpower_plus. discriminate. Qed.

Lemma two_to_cancel (k : Z) : two_to (- k) * two_to k == 1.
Proof. rewrite <- two_to_add. replace (- k + k)%Z with 0%Z by lia. reflexivity. Qed.

Lemma two_to_le (a b : Z) : (a <= b)%Z -> two_to a <= two_to b.
Proof. intros H. apply Qpower_le_compat_l; [assumption | discriminate]. Qed.

Lemma two_to_lt (a b : Z) : (a < b)%Z -> two_to a < two_to b.
Proof. intros H. apply Qpower_lt_compat_l; [assumption | reflexivity]. Qed.

Lemma two_to_Z (k : Z) : (0 <= k)%Z -> two_to k == inject_Z (2 ^ k).
Proof. intros H. symmetry. apply (Zpower_Qpower 2 k H). Qed.

(** *** Rounding to an integer *)

Lemma round_half_even_cases (q : Q) :
  (round_half_even q = Qfloor q /\ q - inject_Z (Qfloor q) <= 1 # 2) \/
  (round_half_even q = (Qfloor q + 1)%Z /\ 1 # 2 <= q - inject_Z (Qfloor q)).
Proof.
  unfold round_half_even.
  destruct (Qcompare_spec (q - inject_Z (Qfloor q)) (1 # 2)) as [E|L|G].
  - destruct (Z.even (Qfloor q)); [left | right]; (split; [reflexivity|]);
      rewrite E; apply Qle_refl.
  - left. split; [reflexivity | apply Qlt_le_weak; assumption].
  - right. split; [reflexivity | apply Qlt_le_weak; assumption].
Qed.

(** The rounded value is a nearest integer. *)
Lemma round_half_even_nearest (q : Q) :
  Qabs (inject_Z (round_half_even q) - q) <= 1 # 2.
Proof.
  pose proof (Qfloor_le q) as L. pose proof (Qlt_floor q) as U.
  rewrite inject_Z_plus in U. change (inject_Z 1) with 1 in U.
  apply Qabs_Qle_condition.
  destruct (round_half_even_cases q) as [(-> & H)|(-> & H)];
    [|rewrite inject_Z_plus; change (inject_Z 1) with 1]; split; lra.
Qed.

Lemma round_half_even_Z (z : Z) : round_half_even (inject_Z z) = z.
Proof.
  unfold round_half_even. rewrite Qfloor_Z.
  destruct (Qcompare_spec (inject_Z z - inject_Z z) (1 # 2)) as [E|L|G];
    [exfalso; lra | reflexivity | exfalso; lra].
Qed.

Lemma round_half_even_mono (x y : Q) :
  x <= y -> (round_half_even x <= round_half_even y)%Z.
Proof.
  intros H. pose proof (Qfloor_resp_le _ _ H) as F.
  destruct (Z.eq_dec (Qfloor x) (Qfloor y)) as [E|N].
  - unfold round_half_even. rewrite <- E.
    destruct (Qcompare_spec (x - inject_Z (Qfloor x)) (1 # 2)) as [Ex|Lx|Gx];
      destruct (Qcompare_spec (y - inject_Z (Qfloor x)) (1 # 2)) as [Ey|Ly|Gy];
      try (destruct (Z.even (Qfloor x))); try lia; exfalso; lra.
  - destruct (round_half_even_cases x) as [(-> & _)|(-> & _)];
      destruct (round_half_even_cases y) as [(-> & _)|(-> & _)]; lia.
Qed.

Lemma round_half_even_comp (x y : Q) :
  x == y -> round_half_even x = round_half_even y.
Proof.
  intros E. apply Z.le_antisymm; apply round_half_even_mono; rewrite E;
    apply Qle_refl.
Qed.

(** *** The exponent of a positive rational *)

Lemma Qmult_inject_lt (a : Z) (b : positive) (x y : Z) :
  (x * Zpos b < a * y)%Z -> inject_Z x < (a # b) * inject_Z y.
Proof. unfold Qlt, Qmult, inject_Z; simpl. intros H. nia. Qed.

Lemma Qmult_inject_gt (a : Z) (b : positive) (x y : Z) :
  (a * y < x * Zpos b)%Z -> (a # b) * inject_Z y < inject_Z x.
Proof. unfold Qlt, Qmult, inject_Z; simpl. intros H. nia. Qed.

Lemma mag_spec (q : Q) :
  0 < q -> two_to (mag q - 1) <= q /\ q < two_to (mag q).
Proof.
  intros Hq. destruct q as [a b].
  assert (Ha : (0 < a)%Z) by (unfold Qlt in Hq; simpl in Hq; lia).
  pose proof (Z.log2_spec a Ha) as (La & Ua).
  pose proof (Z.log2_spec (Zpos b) (Pos2Z.is_pos b)) as (Lb & Ub).
  pose proof (Z.log2_nonneg a) as Na.
  pose proof (Z.log2_nonneg (Zpos b)) as Nb.
  set (la := Z.log2 a) in *. set (lb := Z.log2 (Zpos b)) in *.
  assert (Pa : (0 < 2 ^ la)%Z) by (apply Z.pow_pos_nonneg; lia).
  assert (Pb : (0 < 2 ^ lb)%Z) by (apply Z.pow_pos_nonneg; lia).
  assert (Lo : two_to (la - lb - 1) < a # b).
  { apply (Qmult_lt_r _ _ (two_to (lb + 1))); [apply two_to_pos|].
    rewrite <- two_to_add. replace (la - lb - 1 + (lb + 1))%Z with la by lia.
    rewrite !two_to_Z by lia. apply Qmult_inject_lt.
    rewrite Z.pow_add_r by lia. change (2 ^ 1)%Z with 2%Z.
    replace (Z.succ lb) with (lb + 1)%Z in Ub by lia.
    rewrite Z.pow_add_r in Ub by lia. change (2 ^ 1)%Z with 2%Z in Ub. nia. }
  assert (Hi : a # b < two_to (la - lb + 1)).
  { apply (Qmult_lt_r _ _ (two_to lb)); [apply two_to_pos|].
    rewrite <- two_to_add. replace (la - lb + 1 + lb)%Z with (la + 1)%Z by lia.
    rewrite !two_to_Z by lia. apply Qmult_inject_gt.
    replace (Z.succ la) with (la + 1)%Z in Ua by lia. nia. }
  unfold mag. cbn [Qnum Qden]. fold la lb.
  destruct (Qle_bool (two_to (la - lb)) (a # b)) eqn:B.
  - apply Qle_bool_iff in B.
    replace (la - lb + 1 - 1)%Z with (la - lb)%Z by lia. split; assumption.
  - assert (Lt : a # b < two_to (la - lb)).
    { apply Qnot_le_lt. intros C. apply Qle_bool_iff in C. congruence. }
    split; [apply Qlt_le_weak|]; assumption.
Qed.

(** The exponent is determined by the value, and grows with it. *)
Lemma mag_mono (x y : Q) : 0 < x -> x <= y -> (mag x <= mag y)%Z.
Proof.
  intros Hx H.
  destruct (mag_spec x Hx) as (Lx & _).
  destruct (mag_spec y (Qlt_le_trans _ _ _ Hx H)) as (_ & Uy).
  assert (T : two_to (mag x - 1) < two_to (mag y)) by lra.
  apply Qpower_lt_compat_l_inv in T; [lia | reflexivity].
Qed.

Lemma ulp_exp_mono (x y : Q) : 0 < x -> x <= y -> (ulp_exp x <= ulp_exp y)%Z.
Proof. intros Hx H. pose proof (mag_mono x y Hx H). unfold ulp_exp. lia. Qed.

(** *** Rounding a positive rational to binary64 *)

Lemma round_half_even_le_pow (x : Q) (k : Z) :
  (0 <= k)%Z -> x <= two_to k -> (round_half_even x <= 2 ^ k)%Z.
Proof.
  intros Hk H. rewrite two_to_Z in H by assumption.
  rewrite <- (round_half_even_Z (2 ^ k)). apply round_half_even_mono; assumption.
Qed.

Lemma round_half_even_ge_pow (x : Q) (k : Z) :
  (0 <= k)%Z -> two_to k <= x -> (2 ^ k <= round_half_even x)%Z.
Proof.
  intros Hk H. rewrite two_to_Z in H by assumption.
  rewrite <- (round_half_even_Z (2 ^ k)). apply round_half_even_mono; assumption.
Qed.

Lemma scale_le (x y : Q) (k : Z) : x <= y -> x * two_to k <= y * two_to k.
Proof.
  intros H. apply Qmult_le_compat_r; [assumption|].
  apply Qlt_le_weak, two_to_pos.
Qed.

Lemma round_pos_le_pow (x : Q) (p : Z) :
  (ulp_exp x <= p)%Z -> x <= two_to p -> round_pos x <= two_to p.
Proof.
  intros He H. unfold round_pos. set (e := ulp_exp x) in *.
  assert (S : x * two_to (- e) <= two_to (p - e)).
  { replace (p - e)%Z with (p + - e)%Z by lia. rewrite two_to_add.
    apply scale_le; assumption. }
  apply round_half_even_le_pow in S; [|lia].
  rewrite Zle_Qle in S. rewrite <- two_to_Z in S by lia.
  apply (scale_le _ _ e) in S. rewrite <- two_to_add in S.
  replace (p - e + e)%Z with p in S by lia. exact S.
Qed.

Lemma round_pos_ge_pow (x : Q) (p : Z) :
  (ulp_exp x <= p)%Z -> two_to p <= x -> two_to p <= round_pos x.
Proof.
  intros He H. unfold round_pos. set (e := ulp_exp x) in *.
  assert (S : two_to (p - e) <= x * two_to (- e)).
  { replace (p - e)%Z with (p + - e)%Z by lia. rewrite two_to_add.
    apply scale_le; assumption. }
  apply round_half_even_ge_pow in S; [|lia].
  rewrite Zle_Qle in S. rewrite <- two_to_Z in S by lia.
  apply (scale_le _ _ e) in S. rewrite <- two_to_add in S.
  replace (p - e + e)%Z with p in S by lia. exact S.
Qed.

Lemma round_pos_nonneg (x : Q) : 0 <= x -> 0 <= round_pos x.
Proof.
  intros H. unfold round_pos.
  apply Qmult_le_0_compat; [|apply Qlt_le_weak, two_to_pos].
  change 0 with (inject_Z 0). rewrite <- Zle_Qle.
  rewrite <- (round_half_even_Z 0). apply round_half_even_mono.
  change (inject_Z 0) with 0.
  apply Qmult_le_0_compat; [assumption | apply Qlt_le_weak, two_to_pos].
Qed.

(** Rounding keeps the order. *)
Lemma round_pos_mono (x y : Q) :
  0 < x -> x <= y -> round_pos x <= round_pos y.
Proof.
  intros Hx H. pose proof (ulp_exp_mono x y Hx H) as He.
  destruct (Z.eq_dec (ulp_exp x) (ulp_exp y)) as [E|N].
  - unfold round_pos. rewrite E. apply scale_le.
    rewrite <- Zle_Qle. apply round_half_even_mono. apply scale_le; assumption.
  - assert (Hy : 0 < y) by lra.
    destruct (mag_spec x Hx) as (_ & Ux). destruct (mag_spec y Hy) as (Ly & _).
    assert (M : (mag x <= mag y - 1)%Z) by (unfold ulp_exp in *; lia).
    apply Qle_trans with (two_to (mag y - 1)).
    + apply round_pos_le_pow; [unfold ulp_exp in *; lia|].
      apply Qle_trans with (two_to (mag x)); [lra | apply two_to_le; lia].
    + apply round_pos_ge_pow; [unfold ulp_exp in *; lia | assumption].
Qed.

(** A multiple of the last place is kept. *)
Lemma round_pos_exact (x : Q) (z u : Z) :
  (ulp_exp x <= u)%Z -> x == inject_Z z * two_to u -> round_pos x == x.
Proof.
  intros He E. unfold round_pos. set (e := ulp_exp x) in *.
  assert (S : x * two_to (- e) == inject_Z (z * 2 ^ (u - e))).
  { rewrite inject_Z_mult, <- two_to_Z by lia.
    replace (u - e)%Z with (u + - e)%Z by lia. rewrite two_to_add, E. ring. }
  rewrite (round_half_even_comp _ _ S), round_half_even_Z, <- S.
  rewrite <- Qmult_assoc, two_to_cancel. ring.
Qed.

(** The error is at most half of the last place. *)
Lemma round_pos_error (x : Q) :
  Qabs (round_pos x - x) <= (1 # 2) * two_to (ulp_exp x).
Proof.
  unfold round_pos. set (e := ulp_exp x).
  assert (S : inject_Z (round_half_even (x * two_to (- e))) * two_to e - x
              == (inject_Z (round_half_even (x * two_to (- e)))
                  - x * two_to (- e)) * two_to e).
  { transitivity (inject_Z (round_half_even (x * two_to (- e))) * two_to e
                  - x * (two_to (- e) * two_to e)); [|ring].
    rewrite two_to_cancel. ring. }
  rewrite S, Qabs_Qmult, (Qabs_pos (two_to e))
    by (apply Qlt_le_weak, two_to_pos).
  apply scale_le. apply round_half_even_nearest.
Qed.

(** *** Rounding any rational *)

Lemma rnd_pos (q : Q) : 0 < q -> rnd q == round_pos q.
Proof.
  intros H. unfold rnd. rewrite Qred_correct.
  destruct (Qcompare_spec q 0) as [E|L|G]; [exfalso; lra | exfalso; lra|].
  reflexivity.
Qed.

Lemma rnd_neg (q : Q) : q < 0 -> rnd q == - round_pos (- q).
Proof.
  intros H. unfold rnd. rewrite Qred_correct.
  destruct (Qcompare_spec q 0) as [E|L|G]; [exfalso; lra | | exfalso; lra].
  reflexivity.
Qed.

Lemma rnd_zero (q : Q) : q == 0 -> rnd q == 0.
Proof.
  intros H. unfold rnd. rewrite Qred_correct.
  destruct (Qcompare_spec q 0) as [E|L|G]; [|exfalso; lra | exfalso; lra].
  reflexivity.
Qed.

Lemma rnd_nonneg (q : Q) : 0 <= q -> 0 <= rnd q.
Proof.
  intros H. destruct (Qlt_le_dec 0 q) as [P|Z].
  - rewrite (rnd_pos q P). apply round_pos_nonneg; assumption.
  - rewrite (rnd_zero q); [apply Qle_refl | lra].
Qed.

Lemma rnd_nonpos (q : Q) : q <= 0 -> rnd q <= 0.
Proof.
  intros H. destruct (Qlt_le_dec q 0) as [N|Z].
  - rewrite (rnd_neg q N).
    assert (0 <= round_pos (- q)) by (apply round_pos_nonneg; lra). lra.
  - rewrite (rnd_zero q); [apply Qle_refl | lra].
Qed.

Lemma rnd_mono (x y : Q) : x <= y -> rnd x <= rnd y.
Proof.
  intros H. destruct (Qlt_le_dec 0 x) as [Px|Nx].
  - rewrite (rnd_pos x Px), (rnd_pos y) by lra.
    apply round_pos_mono; assumption.
  - destruct (Qlt_le_dec y 0) as [Ny|Py].
    + rewrite (rnd_neg x), (rnd_neg y) by lra.
      assert (round_pos (- y) <= round_pos (- x))
        by (apply round_pos_mono; lra). lra.
    + apply Qle_trans with 0; [apply rnd_nonpos | apply rnd_nonneg]; assumption.
Qed.

(** Equal rationals round to the same reduced fraction. *)
Lemma rnd_comp (x y : Q) : x == y -> rnd x = rnd y.
Proof.
  intros E.
  assert (R : rnd x == rnd y)
    by (apply Qle_antisym; apply rnd_mono; rewrite E; apply Qle_refl).
  unfold rnd in *. apply Qred_complete.
  rewrite !Qred_correct in R. exact R.
Qed.

Lemma rnd_opp (q : Q) : rnd (- q) == - rnd q.
Proof.
  destruct (Qlt_le_dec 0 q) as [P|N].
  - rewrite (rnd_neg (- q)), (rnd_pos q P) by lra.
    assert (E : - - q == q) by ring.
    unfold round_pos, ulp_exp.
    assert (M : mag (- - q) = mag q).
    { apply Z.le_antisymm; apply mag_mono; lra. }
    rewrite M. rewrite (round_half_even_comp _ (q * two_to (- Z.max (mag q - 53) (-1074)))).
    + reflexivity.
    + rewrite E. reflexivity.
  - destruct (Qlt_le_dec q 0) as [L|Z].
    + rewrite (rnd_pos (- q)), (rnd_neg q L) by lra. ring.
    + rewrite (rnd_zero q), (rnd_zero (- q)) by lra. reflexivity.
Qed.

Lemma rnd_abs (q : Q) : Qabs (rnd q) == rnd (Qabs q).
Proof.
  destruct (Qlt_le_dec q 0) as [L|P].
  - rewrite (Qabs_neg (rnd q)) by (apply rnd_nonpos; lra).
    rewrite <- rnd_opp. rewrite (rnd_comp (Qabs q) (- q)); [reflexivity|].
    apply Qabs_neg; lra.
  - rewrite (Qabs_pos (rnd q)) by (apply rnd_nonneg; assumption).
    rewrite (rnd_comp (Qabs q) q); [reflexivity|]. apply Qabs_pos; assumption.
Qed.

(** A rational that is an integer below [2^53] is a float. *)
Lemma rnd_small_int (z : Z) :
  (Z.abs z <= 2 ^ 53)%Z -> rnd (inject_Z z) == inject_Z z.
Proof.
  assert (P : forall k, (0 < k <= 2 ^ 53)%Z -> rnd (inject_Z k) == inject_Z k).
  { intros k Hk.
    assert (Q0 : 0 < inject_Z k)
      by (change 0 with (inject_Z 0); rewrite <- Zlt_Qlt; lia).
    rewrite (rnd_pos _ Q0).
    destruct (Z.eq_dec k (2 ^ 53)) as [->|Nk].
    - apply (round_pos_exact _ 1 53); [|rewrite two_to_Z by lia; ring].
      vm_compute. discriminate.
    - apply (round_pos_exact _ k 0); [|unfold two_to; simpl; ring].
      destruct (mag_spec _ Q0) as (L & _).
      assert (T : two_to (mag (inject_Z k) - 1) < two_to 53).
      { apply Qle_lt_trans with (inject_Z k); [assumption|].
        rewrite two_to_Z by lia. rewrite <- Zlt_Qlt. lia. }
      apply Qpower_lt_compat_l_inv in T; [|reflexivity].
      unfold ulp_exp. lia. }
  intros H. destruct (Z.lt_trichotomy z 0) as [N|[->|Pz]].
  - assert (E : inject_Z z == - inject_Z (- z))
      by (rewrite inject_Z_opp; ring).
    rewrite (rnd_comp _ _ E), rnd_opp, (P (- z)%Z) by lia.
    rewrite inject_Z_opp. ring.
  - apply rnd_zero. reflexivity.
  - apply P. lia.
Qed.

(** *** Results of operations *)

Lemma round64_small (q : Q) :
  Qabs (rnd q) < two_to 1024 -> round64 q = Finite (rnd q).
Proof.
  intros H. unfold round64.
  destruct (Qle_bool (two_to 1024) (Qabs (rnd q))) eqn:B; [|reflexivity].
  apply Qle_bool_iff in B. exfalso. lra.
Qed.

Lemma round64_Finite (q r : Q) :
  round64 q = Finite r -> r = rnd q /\ Qabs (rnd q) < two_to 1024.
Proof.
  unfold round64.
  destruct (Qle_bool (two_to 1024) (Qabs (rnd q))) eqn:B; [discriminate|].
  intros [= <-]. split; [reflexivity|].
  apply Qnot_le_lt. intros C. apply Qle_bool_iff in C. congruence.
Qed.

Lemma round64_not_NaN (q : Q) : round64 q <> NaN.
Proof. unfold round64. destruct (Qle_bool _ _); discriminate. Qed.

(** Below a finite result, results are finite and in order. *)
Lemma round64_le (x y ry : Q) :
  0 <= x -> x <= y -> round64 y = Finite ry ->
  round64 x = Finite (rnd x) /\ 0 <= rnd x /\ rnd x <= ry.
Proof.
  intros Hx H R. apply round64_Finite in R. destruct R as (-> & B).
  pose proof (rnd_nonneg x Hx) as Nx. pose proof (rnd_mono x y H) as M.
  split; [|split; assumption].
  apply round64_small. rewrite Qabs_pos by assumption.
  apply Qle_lt_trans with (rnd y); [assumption|].
  rewrite Qabs_pos in B by lra. assumption.
Qed.

(** In the normal range, the relative error of rounding is at most
    [2^-53]. *)
Lemma rnd_relative_error (q : Q) :
  two_to (-1022) <= q -> Qabs (rnd q - q) <= q * two_to (-53).
Proof.
  intros H. pose proof (two_to_pos (-1022)) as P.
  assert (Hq : 0 < q) by lra.
  rewrite (rnd_pos q Hq).
  destruct (mag_spec q Hq) as (L & U).
  assert (M : (-1022 < mag q)%Z).
  { apply (Qpower_lt_compat_l_inv 2); [|reflexivity]. fold (two_to (-1022)).
    fold (two_to (mag q)). lra. }
  apply Qle_trans with ((1 # 2) * two_to (ulp_exp q));
    [apply round_pos_error|].
  unfold ulp_exp. rewrite Z.max_l by lia.
  replace (mag q - 53)%Z with (mag q - 1 + -52)%Z by lia.
  rewrite two_to_add.
  assert (E : q * two_to (-53) == (1 # 2) * (q * two_to (-52)))
    by (unfold two_to; simpl; field).
  rewrite E. apply Qmult_le_l; [reflexivity|]. apply scale_le; assumption.
Qed.

(* ================================================================== *)
(** ** [calculate_footprint] *)
(* ================================================================== *)

Lemma calculate_footprint_steps (n : Z) :
  calculate_footprint n =
  match round64 (inject_Z n / 65) with
  | Finite servers => Ok (round64 (servers * 400))
  | Inf _ => Raise OverflowError
  | NaN => Ok NaN
  end.
Proof.
  unfold calculate_footprint, int_truediv, INSTANCES_PER_SERVER.
  change (65 =? 0)%Z with false. cbv iota.
  change (inject_Z 65) with 65.
  destruct (round64 (inject_Z n / 65)); reflexivity.
Qed.

Lemma calculate_footprint_Finite (n : Z) (v : Q) :
  calculate_footprint n = Ok (Finite v) <->
  round64 (inject_Z n / 65) = Finite (rnd (inject_Z n / 65)) /\
  round64 (rnd (inject_Z n / 65) * 400) = Finite v.
Proof.
  rewrite calculate_footprint_steps. split.
  - destruct (round64 (inject_Z n / 65)) as [s| |] eqn:R; try discriminate.
    intros [= E]. destruct (round64_Finite _ _ R) as (-> & _).
    split; [reflexivity | assumption].
  - intros (-> & ->). reflexivity.
Qed.

Lemma calculate_footprint_monotone (n m : Z) (y : Q) :
  (0 <= n <= m)%Z ->
  calculate_footprint m = Ok (Finite y) ->
  exists x, calculate_footprint n = Ok (Finite x) /\ 0 <= x /\ x <= y.
Proof.
  intros (Hn & Hm) C. apply calculate_footprint_Finite in C.
  destruct C as (R1 & R2).
  assert (Q0 : 0 <= inject_Z n / 65).
  { apply Qle_shift_div_l; [reflexivity|]. rewrite Qmult_0_l.
    change 0 with (inject_Z 0). rewrite <- Zle_Qle. assumption. }
  assert (Q1 : inject_Z n / 65 <= inject_Z m / 65).
  { apply Qmult_le_compat_r; [rewrite <- Zle_Qle; assumption | discriminate]. }
  destruct (round64_le _ _ _ Q0 Q1 R1) as (S1 & N1 & M1).
  assert (Q2 : 0 <= rnd (inject_Z n / 65) * 400) by lra.
  assert (Q3 : rnd (inject_Z n / 65) * 400 <= rnd (inject_Z m / 65) * 400)
    by lra.
  destruct (round64_le _ _ _ Q2 Q3 R2) as (S2 & N2 & M2).
  exists (rnd (rnd (inject_Z n / 65) * 400)).
  split; [|split; assumption].
  apply calculate_footprint_Finite. split; assumption.
Qed.

Lemma Qred_inject_Z (z : Z) : Qred (inject_Z z) = inject_Z z.
Proof.
  unfold Qred, inject_Z.
  pose proof (Z.ggcd_gcd z 1) as G.
  pose proof (Z.ggcd_correct_divisors z 1) as D.
  destruct (Z.ggcd z 1) as (g & aa & bb). simpl in G.
  rewrite Z.gcd_1_r in G. subst g. destruct D as (D1 & D2).
  replace aa with z by lia. replace bb with 1%Z by lia. reflexivity.
Qed.

(** An integer up to [2^53] is its own float. *)
Lemma rnd_int (q : Q) (z : Z) :
  (Z.abs z <= 2 ^ 53)%Z -> q == inject_Z z -> rnd q = inject_Z z.
Proof.
  intros B E. rewrite (rnd_comp _ _ E).
  pose proof (rnd_small_int z B) as R.
  transitivity (Qred (inject_Z z)); [|apply Qred_inject_Z].
  unfold rnd in *. apply Qred_complete.
  rewrite Qred_correct in R. exact R.
Qed.

Lemma round64_int (q : Q) (z : Z) :
  (Z.abs z <= 2 ^ 53)%Z -> q == inject_Z z -> round64 q = Finite (inject_Z z).
Proof.
  intros B E. rewrite <- (rnd_int q z B E). apply round64_small.
  rewrite (rnd_int q z B E).
  apply Qle_lt_trans with (inject_Z (2 ^ 53)).
  - apply Qabs_Qle_condition. rewrite <- inject_Z_opp, <- !Zle_Qle. lia.
  - vm_compute. reflexivity.
Qed.

(** On whole servers the formula is exact. *)
Lemma calculate_footprint_servers (k : Z) :
  (0 <= k)%Z -> (400 * k <= 2 ^ 53)%Z ->
  calculate_footprint (65 * k) = Ok (Finite (inject_Z (400 * k))).
Proof.
  intros Hk B. apply calculate_footprint_Finite.
  assert (E : inject_Z (65 * k) / 65 == inject_Z k)
    by (rewrite inject_Z_mult; field).
  rewrite (rnd_int _ k) by (assumption || lia).
  split.
  - apply round64_int; [lia | assumption].
  - apply round64_int; [lia|]. rewrite inject_Z_mult. ring.
Qed.

(** Each of the two operations loses at most [2^-53] of its result. *)
Lemma calculate_footprint_error (n : Z) (v : Q) :
  (0 <= n)%Z ->
  calculate_footprint n = Ok (Finite v) ->
  Qabs (v - exact_watts n) <= exact_watts n * two_to (-51).
Proof.
  intros Hn C. apply calculate_footprint_Finite in C. destruct C as (_ & R).
  apply round64_Finite in R. destruct R as (-> & _).
  unfold exact_watts. set (q := inject_Z n / 65).
  destruct (Z.eq_dec n 0) as [->|Nz].
  - assert (E0 : q == inject_Z 0) by (unfold q; reflexivity).
    rewrite (rnd_int q 0) by (assumption || (vm_compute; discriminate)).
    rewrite (rnd_int (inject_Z 0 * 400) 0)
      by (reflexivity || (vm_compute; discriminate)).
    rewrite E0. vm_compute. discriminate.
  - assert (Q1 : 1 # 65 <= q).
    { unfold q. apply Qle_shift_div_l; [reflexivity|].
      change ((1 # 65) * 65) with (inject_Z 1 * (65 # 65)).
      assert (inject_Z 1 <= inject_Z n) by (rewrite <- Zle_Qle; lia).
      setoid_replace (inject_Z 1 * (65 # 65)) with (inject_Z 1) by (vm_compute; reflexivity).
      assumption. }
    assert (T1 : two_to (-1022) <= 1 # 65) by (vm_compute; discriminate).
    assert (E1 : Qabs (rnd q - q) <= q * two_to (-53))
      by (apply rnd_relative_error; lra).
    assert (U : two_to (-53) == 1 # 9007199254740992) by reflexivity.
    assert (U' : two_to (-51) == 1 # 2251799813685248) by reflexivity.
    rewrite U in E1. apply Qabs_Qle_condition in E1.
    assert (E2 : Qabs (rnd (rnd q * 400) - rnd q * 400)
                 <= rnd q * 400 * two_to (-53))
      by (apply rnd_relative_error; lra).
    rewrite U in E2. apply Qabs_Qle_condition in E2.
    rewrite U'. apply Qabs_Qle_condition. split; lra.
Qed.

Lemma calculate_footprint_in_range (n : Z) :
  (0 <= n <= 2 ^ 1021)%Z -> exists v, calculate_footprint n = Ok (Finite v).
Proof.
  intros (Hn & B).
  assert (Top : exists y, calculate_footprint (2 ^ 1021) = Ok (Finite y))
    by (eexists; vm_compute; reflexivity).
  destruct Top as (y & Top).
  destruct (calculate_footprint_monotone n (2 ^ 1021) y (conj Hn B) Top)
    as (v & C & _).
  exists v. exact C.
Qed.

(** C8.  [calculate_footprint] is [(instances / 65) * 400] in Python's
    arithmetic: the integer quotient rounded to a float, times 400,
    rounded again.  The result is within [2^-51] of the exact value,
    relatively, it is a finite float for every count up to [2^1021], and
    it is exact on whole servers: 0 for 0, 400 for 65 and 800 for 130. *)
Theorem calculate_footprint_formula :
  (forall n : Z,
      calculate_footprint n
      = (servers <- int_truediv n 65 ;; mul_int servers 400)%py) /\
  (forall n : Z,
      (0 <= n <= 2 ^ 1021)%Z ->
      exists v,
        calculate_footprint n = Ok (Finite v) /\
        Qabs (v - exact_watts n) <= exact_watts n * two_to (-51)) /\
  (forall k : Z,
      (0 <= k)%Z -> (400 * k <= 2 ^ 53)%Z ->
      calculate_footprint (65 * k) = Ok (Finite (inject_Z (400 * k)))) /\
  calculate_footprint 0 = Ok (Finite 0) /\
  calculate_footprint 65 = Ok (Finite 400) /\
  calculate_footprint 130 = Ok (Finite 800).
Proof.
  split; [reflexivity|].
  split.
  - intros n H. destruct (calculate_footprint_in_range n H) as (v & C).
    exists v. split; [exact C|].
    apply calculate_footprint_error; [lia | exact C].
  - split; [exact calculate_footprint_servers|].
    repeat split; vm_compute; reflexivity.
Qed.

Lemma calculate_footprint_formula_witness :
  (exists v,
      calculate_footprint 10 = Ok (Finite v) /\
      Qabs (v - exact_watts 10) <= exact_watts 10 * two_to (-51)) /\
  calculate_footprint (65 * 3) = Ok (Finite (inject_Z (400 * 3))).
Proof.
  destruct calculate_footprint_formula as (_ & Near & Servers & _).
  split.
  - apply (Near 10%Z). vm_compute. split; discriminate.
  - apply (Servers 3%Z); vm_compute; discriminate.
Defined.

(** C9, as the code has it.  On non-negative counts [calculate_footprint]
    is monotonic: below a count with a finite result, results are finite
    and no larger; results are finite up to [2^1021] at least.  It is
    linear up to rounding only: the result is within [2^-51],
    relatively, of the exact value [400 n / 65], which is linear in
    [n]. *)
Theorem calculate_footprint_monotonic :
  (forall (n m : Z) (y : Q),
      (0 <= n <= m)%Z ->
      calculate_footprint m = Ok (Finite y) ->
      exists x, calculate_footprint n = Ok (Finite x) /\ 0 <= x /\ x <= y) /\
  (forall n : Z,
      (0 <= n <= 2 ^ 1021)%Z ->
      exists v,
        calculate_footprint n = Ok (Finite v) /\
        Qabs (v - exact_watts n) <= exact_watts n * two_to (-51)) /\
  (forall a b : Z, exact_watts (a + b) == exact_watts a + exact_watts b) /\
  (forall k n : Z, exact_watts (k * n) == inject_Z k * exact_watts n).
Proof.
  split; [exact calculate_footprint_monotone|].
  split.
  - intros n H. destruct (calculate_footprint_in_range n H) as (v & C).
    exists v. split; [exact C|].
    apply calculate_footprint_error; [lia | exact C].
  - split.
    + intros a b. unfold exact_watts. rewrite inject_Z_plus. field.
    + intros k n. unfold exact_watts. rewrite inject_Z_mult. field.
Qed.

Lemma calculate_footprint_monotonic_witness :
  exists x,
    calculate_footprint 12 = Ok (Finite x) /\ 0 <= x /\ x <= 80.
Proof.
  apply (proj1 calculate_footprint_monotonic 12%Z 13%Z 80).
  - lia.
  - vm_compute. reflexivity.
Defined.

(** C9, as the claim has it, fails: the results for 12 and 1 instances
    do not add up to the result for 13, neither exactly nor as floats,
    and 5 times the result for 3 is not the result for 15. *)
Lemma calculate_footprint_linear_counterexample :
  calculate_footprint 12 = Ok (Finite (5196461108504419 # 70368744177664)) /\
  calculate_footprint 1 = Ok (Finite (6928614811339225 # 1125899906842624)) /\
  calculate_footprint 13 = Ok (Finite 80) /\
  ~ (5196461108504419 # 70368744177664) + (6928614811339225 # 1125899906842624)
    == 80 /\
  add (Finite (5196461108504419 # 70368744177664))
      (Finite (6928614811339225 # 1125899906842624))
  = Finite (5629499534213121 # 70368744177664) /\
  (x <- calculate_footprint 3 ;; mul_int x 5)%py <> calculate_footprint (5 * 3).
Proof.
  repeat split; try (vm_compute; reflexivity); vm_compute; discriminate.
Qed.

(* ================================================================== *)
(** ** The model against the machine's floats *)
(* ================================================================== *)

(** On every count up to 500 the model of [calculate_footprint] returns
    what the processor's binary64 division and multiplication return. *)
Example calculate_footprint_as_machine :
  forallb (fun n : nat =>
             match calculate_footprint (Z.of_nat n),
                   of_machine (PrimFloat.mul
                                 (PrimFloat.div (machine_int (Z.of_nat n))
                                                (machine_int 65))
                                 (machine_int 400)) with
             | Ok (Finite x), Finite y => Qeq_bool x y
             | _, _ => false
             end)
          (seq 0 501) = true.
Proof. vm_compute. reflexivity. Qed.

(** The same for the yearly carbon footprint at 613 g CO2e per kWh. *)
Example calculate_carbon_footprint_as_machine :
  forallb (fun n : nat =>
             match calculate_carbon_footprint_per_year (Z.of_nat n) 613,
                   of_machine
                     (PrimFloat.div
                        (PrimFloat.mul
                           (PrimFloat.div
                              (PrimFloat.mul
                                 (PrimFloat.mul
                                    (PrimFloat.div (machine_int (Z.of_nat n))
                                                   (machine_int 65))
                                    (machine_int 400))
                                 (machine_int 8766))
                              (machine_int 1000))
                           (machine_int 613))
                        (machine_int 1000)) with
             | Ok (Finite x), Finite y => Qeq_bool x y
             | _, _ => false
             end)
          (seq 0 501) = true.
Proof. vm_compute. reflexivity. Qed.

(* ================================================================== *)
(** ** The yearly formulas stay in range *)
(* ================================================================== *)

Lemma rnd_le_pow (x : Q) (p : Z) :
  (-1074 <= p)%Z -> Qabs x <= two_to p -> Qabs (rnd x) <= two_to p.
Proof.
  intros Hp H. rewrite rnd_abs.
  pose proof (Qabs_nonneg x) as N. set (a := Qabs x) in *.
  destruct (Qlt_le_dec 0 a) as [P|Z].
  - rewrite (rnd_pos a P). apply round_pos_le_pow; [|assumption].
    destruct (mag_spec a P) as (L & _).
    assert (T : two_to (mag a - 1) <= two_to p) by lra.
    apply Qpower_le_compat_l_inv in T; [|reflexivity].
    unfold ulp_exp. lia.
  - rewrite (rnd_zero a) by lra. apply Qlt_le_weak, two_to_pos.
Qed.

Lemma round64_pow (x : Q) (p : Z) :
  (-1074 <= p < 1024)%Z -> Qabs x <= two_to p ->
  round64 x = Finite (rnd x) /\ Qabs (rnd x) <= two_to p.
Proof.
  intros Hp H. pose proof (rnd_le_pow x p (proj1 Hp) H) as B.
  split; [|assumption]. apply round64_small.
  apply Qle_lt_trans with (two_to p); [assumption | apply two_to_lt; lia].
Qed.

Lemma mul_pow (a b : Q) (p q : Z) :
  (-1074 <= p + q < 1024)%Z ->
  Qabs a <= two_to p -> Qabs b <= two_to q ->
  exists c, mul (Finite a) (Finite b) = Finite c /\ Qabs c <= two_to (p + q).
Proof.
  intros Hp Ha Hb. exists (rnd (a * b)). cbn [mul].
  apply round64_pow; [assumption|].
  rewrite Qabs_Qmult, two_to_add.
  apply Qmult_le_compat_nonneg; split;
    (apply Qabs_nonneg || assumption).
Qed.

Lemma of_int_exact (z : Z) :
  (Z.abs z <= 2 ^ 53)%Z -> of_int z = Ok (Finite (inject_Z z)).
Proof.
  intros B. unfold of_int.
  rewrite (round64_int (inject_Z z) z B); reflexivity.
Qed.

Lemma of_int_pow (k p : Z) :
  (0 <= p < 1024)%Z -> (Z.abs k <= 2 ^ p)%Z ->
  exists c, of_int k = Ok (Finite c) /\ Qabs c <= two_to p.
Proof.
  intros Hp B. unfold of_int.
  destruct (round64_pow (inject_Z k) p) as (R & A); [lia | |].
  - rewrite two_to_Z by lia. apply Qabs_Qle_condition.
    rewrite <- inject_Z_opp, <- !Zle_Qle. lia.
  - rewrite R. eexists. split; [reflexivity | exact A].
Qed.

Lemma div_1000_pow (a : Q) (p : Z) :
  (-1074 <= p < 1024)%Z -> Qabs a <= two_to p ->
  exists c, div_int (Finite a) 1000 = Ok (Finite c) /\ Qabs c <= two_to p.
Proof.
  intros Hp Ha. unfold div_int.
  rewrite of_int_exact by (vm_compute; discriminate). cbn [bind div].
  change (Qeq_bool (inject_Z 1000) 0) with false. cbv iota.
  destruct (round64_pow (a / inject_Z 1000) p Hp) as (R & A).
  - unfold Qdiv. rewrite Qabs_Qmult.
    change (Qabs (/ inject_Z 1000)) with (1 # 1000).
    pose proof (Qabs_nonneg a). lra.
  - rewrite R. eexists. split; [reflexivity | exact A].
Qed.

Lemma calculate_footprint_pow (n : Z) :
  (0 <= n <= 2 ^ 900)%Z ->
  exists w, calculate_footprint n = Ok (Finite w) /\ Qabs w <= two_to 909.
Proof.
  intros (Hn & B).
  assert (Top : exists y, calculate_footprint (2 ^ 900) = Ok (Finite y) /\
                          y <= two_to 909).
  { eexists. split; [vm_compute; reflexivity | vm_compute; discriminate]. }
  destruct Top as (y & Top & Y).
  destruct (calculate_footprint_monotone n (2 ^ 900) y (conj Hn B) Top)
    as (w & C & N & M).
  exists w. split; [exact C|]. rewrite Qabs_pos by assumption. lra.
Qed.

Lemma calculate_footprint_per_year_pow (n : Z) :
  (0 <= n <= 2 ^ 900)%Z ->
  exists v, calculate_footprint_per_year n = Ok (Finite v) /\
            Qabs v <= two_to 923.
Proof.
  intros H. destruct (calculate_footprint_pow n H) as (w & C & W).
  unfold calculate_footprint_per_year, HOURS_PER_YEAR. rewrite C. cbn [bind].
  destruct (mul_pow w 8766 909 14) as (a & -> & A);
    [lia | assumption | vm_compute; discriminate|].
  apply div_1000_pow; [lia | exact A].
Qed.

Lemma calculate_carbon_footprint_per_year_pow (n k : Z) :
  (0 <= n <= 2 ^ 900)%Z -> (Z.abs k <= 2 ^ 100)%Z ->
  exists v, calculate_carbon_footprint_per_year n k = Ok (Finite v).
Proof.
  intros H K. destruct (calculate_footprint_per_year_pow n H) as (y & C & Y).
  unfold calculate_carbon_footprint_per_year. rewrite C. cbn [bind].
  unfold mul_int. destruct (of_int_pow k 100) as (c & -> & Hc); [lia | lia|].
  cbn [bind].
  destruct (mul_pow y c 923 100) as (g & -> & G); [lia | assumption | assumption|].
  destruct (div_1000_pow g (923 + 100)) as (v & -> & _); [lia | exact G|].
  exists v. reflexivity.
Qed.

(* ================================================================== *)
(** ** [print_footprint] *)
(* ================================================================== *)

Section Reporting.

Context {host : Host}.

(** C6.  [print_footprint] labels its line [TOTAL:] exactly when the name
    is [TOTAL], and [Space <name>:] otherwise.  The metric is chosen with
    carbon first: when [args.carbon] is set (a non-empty string, the test
    [if args.carbon]), the line gives kg CO2e per year for the intensity
    [int(args.carbon)], whatever [args.year] is, and an intensity [int()]
    refuses ends the call with that error; otherwise the line gives kWh
    per year when [args.year] is set, and Watt when it is not.  The
    number printed is the value rounded to a nearest integer.  For counts
    up to [2^900] and intensities up to [2^100] the three values are
    finite floats, so the line is printed. *)
Theorem print_footprint_line (args : Args) (name : str) (n : Z) (st : state) :
  (name = TOTAL -> label name = lit "TOTAL:") /\
  (name <> TOTAL -> label name = lit "Space " ++ name ++ lit ":") /\
  (forall c : str,
      carbon args = Some c -> c <> [] ->
      (forall (k : Z) (v : Q),
          py_int c = Ok k ->
          calculate_carbon_footprint_per_year n k = Ok (Finite v) ->
          print_footprint args name n st
          = (Ok tt,
             after_report st name n
               [report_line (label name) (round_half_even v)
                  "kg CO2e per year"])) /\
      (forall e : exn,
          py_int c = Raise e ->
          print_footprint args name n st
          = (Raise e, after_report st name n []))) /\
  (carbon args = None \/ carbon args = Some [] ->
   year args = true ->
   forall v : Q,
     calculate_footprint_per_year n = Ok (Finite v) ->
     print_footprint args name n st
     = (Ok tt,
        after_report st name n
          [report_line (label name) (round_half_even v) "kWh per year"])) /\
  (carbon args = None \/ carbon args = Some [] ->
   year args = false ->
   forall v : Q,
     calculate_footprint n = Ok (Finite v) ->
     print_footprint args name n st
     = (Ok tt,
        after_report st name n
          [report_line (label name) (round_half_even v) "Watt"])) /\
  (forall v : Q, Qabs (inject_Z (round_half_even v) - v) <= 1 # 2) /\
  ((0 <= n <= 2 ^ 900)%Z ->
   (exists v, calculate_footprint n = Ok (Finite v)) /\
   (exists v, calculate_footprint_per_year n = Ok (Finite v)) /\
   (forall k : Z,
       (Z.abs k <= 2 ^ 100)%Z ->
       exists v, calculate_carbon_footprint_per_year n k = Ok (Finite v))).
Proof.
  assert (G : carbon args = None \/ carbon args = Some [] ->
              given (carbon args) = None)
    by (intros [-> | ->]; reflexivity).
  split; [intros ->; reflexivity|].
  split.
  { intros N. unfold label.
    destruct (str_eqb name TOTAL) eqn:E; [|reflexivity].
    apply str_eqb_eq in E. contradiction. }
  split.
  { intros c C Nc.
    assert (Gc : given (carbon args) = Some c)
      by (rewrite C; destruct c; [contradiction | reflexivity]).
    split.
    - intros k v I V. unfold print_footprint, bindM, record, lift, print.
      cbn [world stdout calls]. rewrite Gc, I, V. reflexivity.
    - intros e I. unfold print_footprint, bindM, record, lift.
      cbn [world stdout calls]. rewrite Gc, I.
      unfold after_report. rewrite app_nil_r. reflexivity. }
  split.
  { intros C Y v V. unfold print_footprint, bindM, record, lift, print.
    cbn [world stdout calls]. rewrite (G C), Y, V. reflexivity. }
  split.
  { intros C Y v V. unfold print_footprint, bindM, record, lift, print.
    cbn [world stdout calls]. rewrite (G C), Y, V. reflexivity. }
  split; [exact round_half_even_nearest|].
  intros H. split.
  - destruct (calculate_footprint_pow n H) as (v & C & _). exists v; exact C.
  - split.
    + destruct (calculate_footprint_per_year_pow n H) as (v & C & _).
      exists v; exact C.
    + intros k K. apply calculate_carbon_footprint_per_year_pow; assumption.
Qed.

End Reporting.

Lemma print_footprint_line_witness :
  @print_footprint Sim.host
    {| year := true; carbon := Some (lit "600"); space := None;
       verbose := false |}
    TOTAL 65 (Sim.start [])
  = (Ok tt,
     after_report (Sim.start []) TOTAL 65 [lit "TOTAL: 2104 kg CO2e per year"]) /\
  @print_footprint Sim.host
    {| year := true; carbon := Some []; space := None; verbose := false |}
    (lit "dev") 65 (Sim.start [])
  = (Ok tt,
     after_report (Sim.start []) (lit "dev") 65
       [lit "Space dev: 3506 kWh per year"]) /\
  @print_footprint Sim.host no_flags (lit "dev") 10 (Sim.start [])
  = (Ok tt,
     after_report (Sim.start []) (lit "dev") 10 [lit "Space dev: 62 Watt"]) /\
  exists v, @calculate_carbon_footprint_per_year 65 600 = Ok (Finite v).
Proof.
  split; [|split; [|split]].
  - destruct (@print_footprint_line Sim.host
                {| year := true; carbon := Some (lit "600"); space := None;
                   verbose := false |} TOTAL 65%Z (Sim.start []))
      as (_ & _ & Carbon & _).
    destruct (Carbon (lit "600") eq_refl ltac:(discriminate)) as (Line & _).
    apply (Line 600%Z (578299135745065 # 274877906944)); vm_compute; reflexivity.
  - destruct (@print_footprint_line Sim.host
                {| year := true; carbon := Some []; space := None;
                   verbose := false |} (lit "dev") 65%Z (Sim.start []))
      as (_ & _ & _ & Year & _).
    apply (Year (or_intror eq_refl) eq_refl (7710655143267533 # 2199023255552)).
    vm_compute; reflexivity.
  - destruct (@print_footprint_line Sim.host no_flags (lit "dev") 10%Z
                (Sim.start []))
      as (_ & _ & _ & _ & Watt & _).
    apply (Watt (or_introl eq_refl) eq_refl
             (8660768514174031 # 140737488355328)).
    vm_compute; reflexivity.
  - destruct (@print_footprint_line Sim.host no_flags TOTAL 65%Z (Sim.start []))
      as (_ & _ & _ & _ & _ & _ & Range).
    destruct Range as (_ & _ & Carbon); [vm_compute; split; discriminate|].
    apply (Carbon 600%Z). vm_compute. discriminate.
Defined.

(* ================================================================== *)
(** ** Further properties: lines and space names *)
(* ================================================================== *)

Lemma splitlines_from_no_break (n : nat) :
  forall (s : str) (cur : option str),
    (List.length s <= n)%nat ->
    Forall (fun c => is_linebreak c = false)
           (match cur with Some l => l | None => [] end) ->
    Forall (Forall (fun c => is_linebreak c = false)) (splitlines_from cur s).
Proof.
  induction n as [|n IH]; intros s cur L C.
  - destruct s; [|simpl in L; lia].
    destruct cur; simpl; repeat constructor. apply Forall_rev. exact C.
  - destruct s as [|c t].
    + destruct cur; simpl; repeat constructor. apply Forall_rev. exact C.
    + simpl in L. cbn [splitlines_from].
      destruct (is_linebreak c) eqn:B.
      * constructor; [apply Forall_rev; exact C|].
        destruct t as [|d t'].
        -- apply IH; [simpl; lia | constructor].
        -- destruct ((c =? 13)%N && (d =? 10)%N).
           ++ apply IH; [simpl in L; lia | constructor].
           ++ apply IH; [simpl in *; lia | constructor].
      * apply IH; [lia|]. constructor; assumption.
Qed.

(** No line of [splitlines] holds a line boundary. *)
Lemma splitlines_no_break (s : str) :
  Forall (Forall (fun c => is_linebreak c = false)) (splitlines s).
Proof.
  apply (splitlines_from_no_break (List.length s)); [lia | constructor].
Qed.

Lemma splitlines_from_line (name : str) :
  Forall (fun c => is_linebreak c = false) name ->
  forall (l rest : str),
    splitlines_from (Some l) (name ++ nl ++ rest)
    = (rev l ++ name) :: splitlines_from None rest.
Proof.
  induction 1 as [|c name C _ IH]; intros l rest.
  - simpl. destruct rest; rewrite app_nil_r; reflexivity.
  - cbn [app splitlines_from]. rewrite C. rewrite IH. simpl.
    rewrite <- app_assoc. reflexivity.
Qed.

(** Lines written one per line are read back as they were. *)
Lemma splitlines_lines (names : list str) :
  Forall (Forall (fun c => is_linebreak c = false)) names ->
  splitlines (flat_map (fun name => name ++ nl) names) = names.
Proof.
  unfold splitlines. induction 1 as [|name names N _ IH]; [reflexivity|].
  cbn [flat_map]. rewrite <- app_assoc. destruct name as [|c name].
  - simpl. destruct (flat_map _ names) eqn:E; rewrite <- E in *;
      rewrite IH; reflexivity.
  - pose proof (Forall_inv N) as C. pose proof (Forall_inv_tail N) as T.
    cbn [app splitlines_from]. rewrite C.
    rewrite (splitlines_from_line name T [c]). rewrite IH. reflexivity.
Qed.

Lemma startswith_long (sep x y : str) :
  (List.length sep <= List.length x)%nat ->
  startswith sep (x ++ y) = startswith sep x.
Proof.
  revert x; induction sep as [|c sep IH]; intros x L; [reflexivity|].
  destruct x as [|d x]; [simpl in L; lia|]. simpl.
  rewrite IH by (simpl in L; lia). reflexivity.
Qed.

Lemma partition_prefix (sep s : str) :
  startswith sep s = true ->
  partition sep s = Some ([], skipn (List.length sep) s).
Proof. intros T. destruct s; simpl; rewrite T; reflexivity. Qed.

(** When the separator does not occur before [pre] ends, [partition]
    splits at [pre]. *)
Lemma partition_at (front pre after : str) (last : char) :
  substring (front ++ [last]) (pre ++ front) = false ->
  partition (front ++ [last]) (pre ++ (front ++ [last]) ++ after)
  = Some (pre, after).
Proof.
  induction pre as [|c pre IH]; intros S.
  - cbn [app].
    assert (T : startswith (front ++ [last]) ((front ++ [last]) ++ after) = true)
      by (apply startswith_app; exists after; reflexivity).
    rewrite (partition_prefix _ _ T), skipn_prefix. reflexivity.
  - cbn [app] in *. cbn [substring] in S. apply orb_false_iff in S.
    destruct S as (S1 & S2). cbn [partition].
    replace (c :: pre ++ (front ++ [last]) ++ after)
      with ((c :: pre ++ front) ++ [last] ++ after)
      by (simpl; rewrite <- !app_assoc; reflexivity).
    rewrite startswith_long
      by (rewrite length_app; simpl; rewrite !length_app; simpl; lia).
    rewrite S1.
    replace ((c :: pre ++ front) ++ [last] ++ after)
      with (c :: pre ++ (front ++ [last]) ++ after)
      by (simpl; rewrite <- !app_assoc; reflexivity).
    rewrite (IH S2). reflexivity.
Qed.

(** X1 (extra).  [get_cf_spaces] reads back a listing: after the first
    ["name\n"], names written one per line come back as the list of
    names, empty names included, when no name holds a line boundary. *)
Theorem list_spaces_reads_listing (pre : str) (names : list str) :
  substring (lit "name" ++ nl) (pre ++ lit "name") = false ->
  Forall (Forall (fun c => is_linebreak c = false)) names ->
  list_spaces (pre ++ (lit "name" ++ nl) ++
               flat_map (fun name => name ++ nl) names)
  = Ok names.
Proof.
  intros S N. unfold list_spaces, contains, split1.
  pose proof (partition_at (lit "name") pre
                (flat_map (fun name => name ++ nl) names) 10%N S) as P.
  change (lit "name" ++ [10%N]) with (lit "name" ++ nl) in P.
  destruct (substring (lit "name" ++ nl)
              (pre ++ (lit "name" ++ nl) ++
               flat_map (fun name => name ++ nl) names)) eqn:T.
  - cbn [bind]. rewrite P. cbn [getitem nth_error bind].
    rewrite (splitlines_lines names N). reflexivity.
  - apply partition_None in T. congruence.
Qed.

Lemma list_spaces_reads_listing_witness :
  list_spaces (lit "Getting spaces in org acme as dev..." ++ nl ++ nl ++
               (lit "name" ++ nl) ++
               flat_map (fun name => name ++ nl)
                 [lit "dev"; []; lit "name"; lit "prod"])
  = Ok [lit "dev"; []; lit "name"; lit "prod"].
Proof.
  apply (list_spaces_reads_listing
           (lit "Getting spaces in org acme as dev..." ++ nl ++ nl)
           [lit "dev"; []; lit "name"; lit "prod"]).
  - vm_compute. reflexivity.
  - repeat constructor.
Defined.

(** X2 (extra).  No space name [get_cf_spaces] returns holds a line
    boundary. *)
Theorem list_spaces_names_on_one_line (text : str) (names : list str) :
  list_spaces text = Ok names ->
  Forall (Forall (fun c => is_linebreak c = false)) names.
Proof.
  unfold list_spaces, contains. cbn [bind].
  destruct (substring (lit "name" ++ nl) text); [|discriminate].
  destruct (getitem _ 1) as [after|]; [|discriminate].
  cbn [bind]. intros [= <-]. apply splitlines_no_break.
Qed.

Lemma list_spaces_names_on_one_line_witness :
  Forall (Forall (fun c => is_linebreak c = false)) [lit "dev"; lit "prod"].
Proof.
  apply (list_spaces_names_on_one_line
           (lit "name" ++ nl ++ lit "dev" ++ [13%N; 10%N] ++ lit "prod")).
  vm_compute. reflexivity.
Defined.

(* ================================================================== *)
(** ** Further properties: [get_services] *)
(* ================================================================== *)

(** X4 (extra).  [get_services] never raises.  It returns 0 when a line
    is exactly ["No services found"], and otherwise the number of
    non-empty lines minus 2: with two header lines followed by service
    lines, the number of service lines. *)
Theorem count_services_value :
  (forall text : str,
      In (lit "No services found") (splitlines text) ->
      count_services text = Ok 0%Z) /\
  (forall text : str,
      ~ In (lit "No services found") (splitlines text) ->
      count_services text
      = Ok (Z.of_nat (List.length (filter truthy (splitlines text))) - 2)%Z) /\
  (forall header1 header2 : str, forall services : list str,
      Forall (fun line => truthy line = true /\
                          Forall (fun c => is_linebreak c = false) line /\
                          line <> lit "No services found")
             (header1 :: header2 :: services) ->
      count_services
        (flat_map (fun line => line ++ nl) (header1 :: header2 :: services))
      = Ok (Z.of_nat (List.length services))).
Proof.
  assert (A : forall text : str,
             ~ In (lit "No services found") (splitlines text) ->
             count_services text
             = Ok (Z.of_nat (List.length (filter truthy (splitlines text)))
                   - 2)%Z).
  { intros text H. apply not_member_In in H.
    unfold count_services, contains. rewrite H. cbn [bind].
    rewrite count_nonempty. reflexivity. }
  split; [|split; [exact A|]].
  - intros text H. apply member_In in H.
    unfold count_services, contains. rewrite H. reflexivity.
  - intros h1 h2 services F.
    assert (L : splitlines (flat_map (fun line => line ++ nl)
                              (h1 :: h2 :: services))
                = h1 :: h2 :: services).
    { apply splitlines_lines. eapply Forall_impl; [|exact F].
      intros line (_ & B & _). exact B. }
    rewrite A; rewrite L.
    + assert (T : filter truthy (h1 :: h2 :: services) = h1 :: h2 :: services).
      { apply forallb_filter_id. apply forallb_forall.
        intros line I. rewrite Forall_forall in F. apply (F line I). }
      rewrite T. f_equal. simpl List.length. lia.
    + intros I. rewrite Forall_forall in F.
      destruct (F _ I) as (_ & _ & N). apply N. reflexivity.
Qed.

Lemma count_services_value_witness :
  count_services
    (flat_map (fun line => line ++ nl)
       [lit "Getting services in org acme / space dev as dev...";
        lit "name   service   plan   bound apps";
        lit "db     postgres  small  api";
        lit "cache  redis     tiny   api, ui";
        lit "mq     rabbitmq  small  batch"])
  = Ok 3%Z.
Proof.
  apply (proj2 (proj2 count_services_value)
           (lit "Getting services in org acme / space dev as dev...")
           (lit "name   service   plan   bound apps")
           [lit "db     postgres  small  api";
            lit "cache  redis     tiny   api, ui";
            lit "mq     rabbitmq  small  batch"]).
  repeat (constructor;
          [split; [reflexivity|];
           split; [repeat constructor | discriminate]|]).
  constructor.
Defined.

(* ================================================================== *)
(** ** Further properties: [get_active_instances] *)
(* ================================================================== *)

Lemma digits_value_bound (g : str) :
  one_or_two_digits g -> (0 <= digits_value g <= 99)%Z.
Proof.
  intros (L & D). unfold digits_value.
  destruct g as [|a [|b [|? ?]]]; destruct L as [L|L]; try discriminate L.
  - apply Forall_inv in D. unfold isdigit in D.
    apply andb_true_iff in D. destruct D as (D1 & D2).
    apply N.leb_le in D1, D2. cbn [fold_left]. lia.
  - pose proof (Forall_inv D) as Da.
    pose proof (Forall_inv (Forall_inv_tail D)) as Db.
    unfold isdigit in Da, Db.
    apply andb_true_iff in Da, Db. destruct Da as (A1 & A2), Db as (B1 & B2).
    apply N.leb_le in A1, A2, B1, B2. cbn [fold_left]. lia.
Qed.

Section Bounds.

Context {host : Host}.

Lemma count_started_bound (lines : list str) :
  forall instances : Z,
  exists n,
    count_started lines instances = Ok n /\
    (instances <= n <= instances + 99 * Z.of_nat (List.length lines))%Z.
Proof.
  induction lines as [|line lines IH]; intros instances.
  - exists instances. split; [reflexivity | simpl; lia].
  - cbn [count_started]. pose proof (search_line_instances line) as S.
    destruct (Re.search started_web line) as [g|].
    + destruct S as (D & _). rewrite (py_int_group g D). cbn [bind].
      pose proof (digits_value_bound g D) as B.
      destruct (IH (instances + digits_value g)%Z) as (n & -> & Hn).
      exists n. split; [reflexivity|]. simpl List.length. lia.
    + destruct (IH instances) as (n & -> & Hn).
      exists n. split; [reflexivity|]. simpl List.length. lia.
Qed.

(** X5 (extra).  [get_active_instances] ends in one of three ways: it
    returns a count between 0 and 99 times the number of lines, it raises
    [IndexError] (fewer than three lines), or it raises the
    [RuntimeError] that carries the lines.  [int()] never fails on what
    the pattern captured. *)
Theorem count_active_instances_outcome (text : str) :
  (exists n,
      count_active_instances text = Ok n /\
      (0 <= n <= 99 * Z.of_nat (List.length (splitlines text)))%Z) \/
  (count_active_instances text = Raise IndexError /\
   (List.length (splitlines text) < 3)%nat) \/
  count_active_instances text
  = Raise (RuntimeError (lit "Error retrieving applications data")
             (List (splitlines text))).
Proof.
  unfold count_active_instances, contains. cbn [bind].
  destruct (existsb _ (splitlines text)).
  - left. exists 0%Z. split; [reflexivity | lia].
  - unfold getitem.
    destruct (nth_error (splitlines text) 2) as [third|] eqn:N; cbn [bind].
    + destruct (startswith (lit "name") third); [|right; right; reflexivity].
      left. destruct (count_started_bound (splitlines text) 0) as (n & C & B).
      exists n. split; [exact C | lia].
    + right; left. split; [reflexivity|].
      apply nth_error_None in N. lia.
Qed.

(** X6 (extra).  A line in which ["started"] does not occur adds nothing,
    so a listing of applications none of which is started counts 0. *)
Theorem count_without_started (text third : str) :
  ~ In (lit "No apps found") (splitlines text) ->
  nth_error (splitlines text) 2 = Some third ->
  startswith (lit "name") third = true ->
  (forall line, In line (splitlines text) ->
                substring (lit "started") line = false) ->
  count_active_instances text = Ok 0%Z.
Proof.
  intros No N S Stopped.
  assert (Z0 : forall lines instances,
             (forall line, In line lines ->
                           substring (lit "started") line = false) ->
             count_started lines instances = Ok instances).
  { induction lines as [|line lines IH]; intros instances H; [reflexivity|].
    cbn [count_started].
    destruct (Re.search started_web line) as [g|] eqn:R.
    - exfalso. apply search_Some in R.
      destruct R as (before & rest & E & M & _).
      apply match_here_entry in M.
      destruct M as (c & ws & q & tail & _ & _ & _ & _ & Er).
      assert (T : substring (lit "started") line = true).
      { rewrite E, Er.
        replace (before ++ [c] ++ lit "started" ++ ws ++ lit "web:" ++ g ++
                 lit "/" ++ q ++ tail)
          with ((before ++ [c]) ++ lit "started" ++
                (ws ++ lit "web:" ++ g ++ lit "/" ++ q ++ tail))
          by (rewrite <- !app_assoc; reflexivity).
        generalize (before ++ [c]) as a.
        generalize (ws ++ lit "web:" ++ g ++ lit "/" ++ q ++ tail) as b.
        intros b a. induction a as [|x a IHa]; [reflexivity|].
        cbn [app substring]. rewrite IHa. apply orb_true_r. }
      rewrite (H line (or_introl eq_refl)) in T. discriminate.
    - apply IH. intros l I. apply H. right. exact I. }
  unfold count_active_instances, contains.
  apply not_member_In in No. rewrite No. cbn [bind]. unfold getitem.
  rewrite N. cbn [bind]. rewrite S. apply Z0. exact Stopped.
Qed.

End Bounds.

Lemma count_without_started_witness :
  @count_active_instances Sim.host
    (Sim.apps_table ["old      stopped   web:0/2   256M"%string;
                     "older    stopped   web:0/12  256M"%string])
  = Ok 0%Z.
Proof.
  apply (@count_without_started Sim.host _
           (lit "name       requested state   instances   memory   disk   urls")).
  - vm_compute. intros [[=]|[[=]|[[=]|[[=]|[[=]|[]]]]]].
  - reflexivity.
  - reflexivity.
  - vm_compute. intros line [<-|[<-|[<-|[<-|[<-|[]]]]]]; reflexivity.
Defined.

Lemma prefix_of_long (sep u v a : str) :
  u ++ v = sep ++ a -> (List.length sep <= List.length u)%nat ->
  exists z, u = sep ++ z.
Proof.
  revert u; induction sep as [|c sep IH]; intros u E L.
  - exists u. reflexivity.
  - destruct u as [|d u]; [simpl in L; lia|].
    simpl in E. injection E as -> E. simpl in L.
    destruct (IH u E) as (z & ->); [lia|]. exists z. reflexivity.
Qed.

Lemma spaces_before_web (ws ws' x y : str) :
  Forall (fun c => isspace c = true) ws ->
  Forall (fun c => isspace c = true) ws' ->
  ws ++ lit "web:" ++ x = ws' ++ lit "web:" ++ y ->
  ws = ws' /\ x = y.
Proof.
  intros W. revert ws'. induction W as [|c ws C W IH]; intros ws' W' E.
  - destruct W' as [|d ws' D W'].
    + simpl in E. injection E as E. split; [reflexivity | assumption].
    + simpl in E. injection E as <- _. discriminate D.
  - destruct W' as [|d ws' D W'].
    + simpl in E. injection E as -> _. discriminate C.
    + simpl in E. injection E as -> E.
      destruct (IH _ W' E) as (-> & R). split; [reflexivity | assumption].
Qed.

(** X7 (extra).  The pattern takes at most two digits before the slash:
    a row whose number of running instances has three digits or more
    (100 instances and up) is not found by the search, so the loop of
    [get_active_instances] adds nothing for it. *)
Theorem three_digit_row_not_counted (name ws ds rest : str) (c : char) :
  isspace c = true ->
  Forall (fun x => isspace x = true) ws ->
  Forall (fun x => isdigit x = true) ds ->
  (3 <= List.length ds)%nat ->
  substring (lit "started") (name ++ [c] ++ lit "starte") = false ->
  substring (lit "started")
            (lit "tarted" ++ ws ++ lit "web:" ++ ds ++ rest) = false ->
  Re.search started_web
    (name ++ [c] ++ lit "started" ++ ws ++ lit "web:" ++ ds ++ rest)
  = None.
Proof.
  intros C W D L E1 E2.
  destruct (Re.search started_web _) as [g|] eqn:R; [exfalso | reflexivity].
  apply search_Some in R. destruct R as (before & s & E & M & _).
  apply match_here_entry in M.
  destruct M as (c' & ws' & q & tail & _ & W' & (Lg & Dg) & _ & Es).
  subst s.
  set (X := ws ++ lit "web:" ++ ds ++ rest) in *.
  set (Y := ws' ++ lit "web:" ++ g ++ lit "/" ++ q ++ tail) in *.
  assert (E' : (name ++ [c]) ++ lit "started" ++ X
               = (before ++ [c']) ++ lit "started" ++ Y)
    by (rewrite <- !app_assoc; exact E).
  apply app_eq_app in E'. destruct E' as (l & [(P & Q)|(P & Q)]).
  - (* the entry found starts further left *)
    destruct l as [|x l].
    + rewrite app_nil_r in P. cbn [app] in Q.
      apply app_inv_head in Q. unfold X, Y in Q.
      destruct (spaces_before_web ws' ws _ _ W' W Q) as (_ & G).
      clear - G Lg Dg D L.
      destruct ds as [|d1 [|d2 [|d3 ds]]]; try (simpl in L; lia).
      destruct g as [|a [|b [|? ?]]]; destruct Lg as [Lg|Lg];
        try discriminate Lg; simpl in G.
      * injection G as _ G _.
        apply Forall_inv_tail, Forall_inv in D. rewrite <- G in D.
        discriminate D.
      * injection G as _ _ G _.
        apply Forall_inv_tail, Forall_inv_tail, Forall_inv in D.
        rewrite <- G in D. discriminate D.
    + assert (Z : exists z, (x :: l) ++ lit "starte" = lit "started" ++ z).
      { apply (prefix_of_long _ _ ([100%N] ++ X) Y).
        - rewrite <- app_assoc, Q. reflexivity.
        - rewrite length_app. simpl. lia. }
      destruct Z as (z & Z).
      assert (T : substring (lit "started") (name ++ [c] ++ lit "starte") = true).
      { rewrite app_assoc, P, <- app_assoc, Z. apply substring_intro. }
      congruence.
  - (* the entry found starts further right *)
    destruct l as [|x l].
    + rewrite app_nil_r in P. cbn [app] in Q.
      apply app_inv_head in Q. unfold X, Y in Q.
      destruct (spaces_before_web ws ws' _ _ W W' Q) as (_ & G).
      clear - G Lg Dg D L.
      destruct ds as [|d1 [|d2 [|d3 ds]]]; try (simpl in L; lia).
      destruct g as [|a [|b [|? ?]]]; destruct Lg as [Lg|Lg];
        try discriminate Lg; simpl in G.
      * injection G as _ G _.
        apply Forall_inv_tail, Forall_inv in D. rewrite G in D.
        discriminate D.
      * injection G as _ _ G _.
        apply Forall_inv_tail, Forall_inv_tail, Forall_inv in D.
        rewrite G in D. discriminate D.
    + simpl in Q. injection Q as <- Q.
      assert (T : substring (lit "started") (lit "tarted" ++ X) = true).
      { replace (lit "tarted" ++ X) with (l ++ lit "started" ++ Y)
          by (symmetry; exact Q).
        apply substring_intro. }
      congruence.
Qed.

Lemma three_digit_row_not_counted_witness :
  Re.search started_web (lit "big      started           web:100/100   1G")
  = None.
Proof.
  apply (three_digit_row_not_counted (lit "big     ") (lit "          ")
           (lit "100") (lit "/100   1G") 32%N).
  - reflexivity.
  - repeat constructor.
  - repeat constructor.
  - simpl. lia.
  - vm_compute. reflexivity.
  - vm_compute. reflexivity.
Defined.

(* ================================================================== *)
(** ** Further properties: the yearly formulas *)
(* ================================================================== *)

Lemma div_int_1000 (x : float) :
  div_int x 1000
  = Ok match x with
       | Finite a => round64 (a / 1000)
       | Inf s => Inf (xorb s (is_neg 1000))
       | NaN => NaN
       end.
Proof.
  unfold div_int. rewrite of_int_exact by (vm_compute; discriminate).
  cbn [bind div]. change (Qeq_bool (inject_Z 1000) 0) with false.
  destruct x; reflexivity.
Qed.

Lemma calculate_footprint_per_year_Finite (n : Z) (y : Q) :
  calculate_footprint_per_year n = Ok (Finite y) <->
  exists w,
    calculate_footprint n = Ok (Finite w) /\
    round64 (w * 8766) = Finite (rnd (w * 8766)) /\
    round64 (rnd (w * 8766) / 1000) = Finite y.
Proof.
  unfold calculate_footprint_per_year, HOURS_PER_YEAR. split.
  - destruct (calculate_footprint n) as [[w| |]|]; cbn [bind mul];
      try (rewrite div_int_1000; discriminate); try discriminate.
    rewrite div_int_1000.
    destruct (round64 (w * 8766)) as [a| |] eqn:R; try discriminate.
    intros [= E]. destruct (round64_Finite _ _ R) as (-> & _).
    exists w. repeat split; assumption.
  - intros (w & -> & R & E). cbn [bind mul]. rewrite div_int_1000, R, E.
    reflexivity.
Qed.

Lemma div_1000_le (x y : Q) : x <= y -> x / 1000 <= y / 1000.
Proof. intros H. apply Qmult_le_compat_r; [assumption | discriminate]. Qed.

Lemma calculate_footprint_per_year_monotone (n m : Z) (y : Q) :
  (0 <= n <= m)%Z ->
  calculate_footprint_per_year m = Ok (Finite y) ->
  exists x,
    calculate_footprint_per_year n = Ok (Finite x) /\ 0 <= x /\ x <= y.
Proof.
  intros H C. apply calculate_footprint_per_year_Finite in C.
  destruct C as (wm & Cm & R1 & R2).
  destruct (calculate_footprint_monotone n m wm H Cm) as (wn & Cn & N & M).
  assert (Q0 : 0 <= wn * 8766) by lra.
  assert (Q1 : wn * 8766 <= wm * 8766) by lra.
  destruct (round64_le _ _ _ Q0 Q1 R1) as (S1 & N1 & M1).
  assert (Q2 : 0 <= rnd (wn * 8766) / 1000).
  { apply Qle_shift_div_l; [reflexivity | lra]. }
  pose proof (div_1000_le _ _ M1) as Q3.
  destruct (round64_le _ _ _ Q2 Q3 R2) as (S2 & N2 & M2).
  exists (rnd (rnd (wn * 8766) / 1000)). split; [|split; assumption].
  apply calculate_footprint_per_year_Finite. exists wn.
  repeat split; assumption.
Qed.

Lemma calculate_footprint_per_year_error (n : Z) (v : Q) :
  (0 <= n)%Z ->
  calculate_footprint_per_year n = Ok (Finite v) ->
  Qabs (v - exact_kwh n) <= exact_kwh n * two_to (-50).
Proof.
  intros Hn C. apply calculate_footprint_per_year_Finite in C.
  destruct C as (w & Cw & _ & R).
  apply round64_Finite in R. destruct R as (-> & _).
  apply calculate_footprint_Finite in Cw. destruct Cw as (_ & Rw).
  apply round64_Finite in Rw. destruct Rw as (-> & _).
  unfold exact_kwh, exact_watts. set (q := inject_Z n / 65).
  destruct (Z.eq_dec n 0) as [->|Nz].
  - assert (E0 : q == inject_Z 0) by (unfold q; reflexivity).
    rewrite (rnd_int q 0) by (assumption || (vm_compute; discriminate)).
    rewrite (rnd_int (inject_Z 0 * 400) 0)
      by (reflexivity || (vm_compute; discriminate)).
    rewrite (rnd_int (inject_Z 0 * 8766) 0)
      by (reflexivity || (vm_compute; discriminate)).
    rewrite (rnd_int (inject_Z 0 / 1000) 0)
      by (reflexivity || (vm_compute; discriminate)).
    rewrite E0. vm_compute. discriminate.
  - assert (Q1 : 1 # 65 <= q).
    { unfold q. apply Qle_shift_div_l; [reflexivity|].
      assert (inject_Z 1 <= inject_Z n) by (rewrite <- Zle_Qle; lia).
      setoid_replace ((1 # 65) * 65) with (inject_Z 1)
        by (vm_compute; reflexivity).
      assumption. }
    assert (T1 : two_to (-1022) <= 1 # 1000) by (vm_compute; discriminate).
    assert (U : two_to (-53) == 1 # 9007199254740992) by reflexivity.
    assert (U' : two_to (-50) == 1 # 1125899906842624) by reflexivity.
    assert (E1 : Qabs (rnd q - q) <= q * two_to (-53))
      by (apply rnd_relative_error; lra).
    rewrite U in E1. apply Qabs_Qle_condition in E1.
    set (x1 := rnd q) in *.
    assert (E2 : Qabs (rnd (x1 * 400) - x1 * 400) <= x1 * 400 * two_to (-53))
      by (apply rnd_relative_error; lra).
    rewrite U in E2. apply Qabs_Qle_condition in E2.
    set (x2 := rnd (x1 * 400)) in *.
    assert (E3 : Qabs (rnd (x2 * 8766) - x2 * 8766)
                 <= x2 * 8766 * two_to (-53))
      by (apply rnd_relative_error; lra).
    rewrite U in E3. apply Qabs_Qle_condition in E3.
    set (x3 := rnd (x2 * 8766)) in *.
    assert (D : x3 / 1000 == x3 * (1 # 1000)) by reflexivity.
    assert (E4 : Qabs (rnd (x3 / 1000) - x3 / 1000)
                 <= x3 / 1000 * two_to (-53))
      by (apply rnd_relative_error; rewrite D; lra).
    rewrite U in E4. apply Qabs_Qle_condition in E4.
    set (x4 := rnd (x3 / 1000)) in *. rewrite D in E4.
    assert (D' : q * 400 * 8766 / 1000 == q * 400 * 8766 * (1 # 1000))
      by reflexivity.
    rewrite D', U'. apply Qabs_Qle_condition. split; lra.
Qed.

(** X8 (extra).  [calculate_footprint_per_year] is monotonic on
    non-negative counts: below a count with a finite result, results are
    finite and no larger.  For counts up to [2^900] the result is finite
    and within [2^-50], relatively, of the exact
    [400 n / 65 * 8766 / 1000] kWh. *)
Theorem calculate_footprint_per_year_monotonic :
  (forall (n m : Z) (y : Q),
      (0 <= n <= m)%Z ->
      calculate_footprint_per_year m = Ok (Finite y) ->
      exists x,
        calculate_footprint_per_year n = Ok (Finite x) /\ 0 <= x /\ x <= y) /\
  (forall n : Z,
      (0 <= n <= 2 ^ 900)%Z ->
      exists v,
        calculate_footprint_per_year n = Ok (Finite v) /\
        Qabs (v - exact_kwh n) <= exact_kwh n * two_to (-50)).
Proof.
  split; [exact calculate_footprint_per_year_monotone|].
  intros n H. destruct (calculate_footprint_per_year_pow n H) as (v & C & _).
  exists v. split; [exact C|].
  apply calculate_footprint_per_year_error; [lia | exact C].
Qed.

Lemma calculate_footprint_per_year_monotonic_witness :
  (exists x,
      calculate_footprint_per_year 10 = Ok (Finite x) /\ 0 <= x /\
      x <= 7710655143267533 # 2199023255552) /\
  (exists v,
      calculate_footprint_per_year 65 = Ok (Finite v) /\
      Qabs (v - exact_kwh 65) <= exact_kwh 65 * two_to (-50)).
Proof.
  destruct calculate_footprint_per_year_monotonic as (Mono & Near).
  split.
  - apply (Mono 10%Z 65%Z); [lia | vm_compute; reflexivity].
  - apply (Near 65%Z). vm_compute. split; discriminate.
Defined.

Lemma calculate_carbon_footprint_per_year_Finite (n k : Z) (y : Q) :
  calculate_carbon_footprint_per_year n k = Ok (Finite y) <->
  exists b,
    calculate_footprint_per_year n = Ok (Finite b) /\
    round64 (inject_Z k) = Finite (rnd (inject_Z k)) /\
    round64 (b * rnd (inject_Z k)) = Finite (rnd (b * rnd (inject_Z k))) /\
    round64 (rnd (b * rnd (inject_Z k)) / 1000) = Finite y.
Proof.
  unfold calculate_carbon_footprint_per_year, mul_int, of_int. split.
  - destruct (calculate_footprint_per_year n) as [[b|s|]|]; cbn [bind];
      try discriminate;
      destruct (round64 (inject_Z k)) as [kf| |] eqn:K; cbn [bind mul];
      try discriminate;
      try match goal with
          | |- context [Qeq_bool ?x 0] => destruct (Qeq_bool x 0)
          end;
      rewrite ?div_int_1000; try discriminate.
    destruct (round64 (b * kf)) as [g| |] eqn:G; try discriminate.
    intros [= E].
    destruct (round64_Finite _ _ K) as (-> & _).
    destruct (round64_Finite _ _ G) as (-> & _).
    exists b. repeat split; assumption.
  - intros (b & -> & K & G & E). cbn [bind]. rewrite K. cbn [bind mul].
    rewrite div_int_1000, G, E. reflexivity.
Qed.

Lemma round64_zero (q : Q) : q == 0 -> round64 q = Finite 0.
Proof.
  intros E. apply (round64_int q 0); [vm_compute; discriminate | exact E].
Qed.

(** X9 (extra).  For a non-negative intensity,
    [calculate_carbon_footprint_per_year] is monotonic in the count, and
    for a non-negative count it is monotonic in the intensity: below a
    finite result, results are finite, non-negative and no larger.  It is
    0 for no instance and for the intensity 0. *)
Theorem calculate_carbon_footprint_per_year_monotonic :
  (forall (n m k : Z) (y : Q),
      (0 <= n <= m)%Z -> (0 <= k)%Z ->
      calculate_carbon_footprint_per_year m k = Ok (Finite y) ->
      exists x,
        calculate_carbon_footprint_per_year n k = Ok (Finite x) /\
        0 <= x /\ x <= y) /\
  (forall (n k l : Z) (y : Q),
      (0 <= n)%Z -> (0 <= k <= l)%Z ->
      calculate_carbon_footprint_per_year n l = Ok (Finite y) ->
      exists x,
        calculate_carbon_footprint_per_year n k = Ok (Finite x) /\
        0 <= x /\ x <= y) /\
  (forall n : Z,
      (0 <= n <= 2 ^ 900)%Z ->
      calculate_carbon_footprint_per_year n 0 = Ok (Finite 0)) /\
  (forall k : Z,
      (Z.abs k <= 2 ^ 100)%Z ->
      calculate_carbon_footprint_per_year 0 k = Ok (Finite 0)).
Proof.
  assert (Int : forall k : Z, (0 <= k)%Z -> 0 <= inject_Z k)
    by (intros k Hk; change 0 with (inject_Z 0); rewrite <- Zle_Qle; exact Hk).
  assert (Tail : forall g h y : Q,
             0 <= g -> g <= h ->
             round64 h = Finite (rnd h) ->
             round64 (rnd h / 1000) = Finite y ->
             round64 g = Finite (rnd g) /\
             exists x, round64 (rnd g / 1000) = Finite x /\ 0 <= x /\ x <= y).
  { intros g h y G0 GH R1 R2.
    destruct (round64_le _ _ _ G0 GH R1) as (S1 & N1 & M1).
    split; [exact S1|].
    assert (Q2 : 0 <= rnd g / 1000)
      by (apply Qle_shift_div_l; [reflexivity | lra]).
    pose proof (div_1000_le _ _ M1) as Q3.
    destruct (round64_le _ _ _ Q2 Q3 R2) as (S2 & N2 & M2).
    exists (rnd (rnd g / 1000)). repeat split; assumption. }
  split; [|split; [|split]].
  - intros n m k y H Hk C.
    apply calculate_carbon_footprint_per_year_Finite in C.
    destruct C as (bm & Cm & K & G & E).
    destruct (calculate_footprint_per_year_monotone n m bm H Cm)
      as (bn & Cn & N & M).
    pose proof (rnd_nonneg _ (Int k Hk)) as Kf.
    destruct (Tail (bn * rnd (inject_Z k)) (bm * rnd (inject_Z k)) y)
      as (S & x & X & X0 & Xy); try assumption.
    + apply Qmult_le_0_compat; assumption.
    + apply Qmult_le_compat_r; assumption.
    + exists x. split; [|split; assumption].
      apply calculate_carbon_footprint_per_year_Finite. exists bn.
      repeat split; assumption.
  - intros n k l y Hn (Hk & Hl) C.
    apply calculate_carbon_footprint_per_year_Finite in C.
    destruct C as (b & Cb & L & G & E).
    assert (B0 : 0 <= b).
    { destruct (calculate_footprint_per_year_monotone n n b
                  (conj Hn (Z.le_refl n)) Cb) as (b' & Cb' & N & _).
      rewrite Cb in Cb'. injection Cb' as <-. exact N. }
    pose proof (rnd_nonneg _ (Int k Hk)) as Kf.
    assert (KL : rnd (inject_Z k) <= rnd (inject_Z l))
      by (apply rnd_mono; rewrite <- Zle_Qle; exact Hl).
    destruct (round64_le (inject_Z k) (inject_Z l) _ (Int k Hk)
                ltac:(rewrite <- Zle_Qle; exact Hl) L) as (K & _ & _).
    destruct (Tail (b * rnd (inject_Z k)) (b * rnd (inject_Z l)) y)
      as (S & x & X & X0 & Xy); try assumption.
    + apply Qmult_le_0_compat; assumption.
    + rewrite !(Qmult_comm b). apply Qmult_le_compat_r; assumption.
    + exists x. split; [|split; assumption].
      apply calculate_carbon_footprint_per_year_Finite. exists b.
      repeat split; assumption.
  - intros n H. destruct (calculate_footprint_per_year_pow n H) as (b & C & _).
    apply calculate_carbon_footprint_per_year_Finite. exists b.
    assert (K : rnd (inject_Z 0) = 0) by (vm_compute; reflexivity).
    rewrite K. split; [exact C|]. split; [vm_compute; reflexivity|].
    assert (G : rnd (b * 0) = 0)
      by (apply (rnd_int _ 0); [vm_compute; discriminate | ring]).
    rewrite G. split; [apply round64_zero; ring | vm_compute; reflexivity].
  - intros k H. apply calculate_carbon_footprint_per_year_Finite. exists 0.
    split; [vm_compute; reflexivity|].
    destruct (of_int_pow k 100 ltac:(lia) H) as (c & O & _).
    unfold of_int in O.
    destruct (round64 (inject_Z k)) as [kf| |] eqn:K; try discriminate.
    destruct (round64_Finite _ _ K) as (-> & _).
    split; [reflexivity|].
    assert (G : rnd (0 * rnd (inject_Z k)) = 0)
      by (apply (rnd_int _ 0); [vm_compute; discriminate | ring]).
    rewrite G. split; [apply round64_zero; ring | vm_compute; reflexivity].
Qed.

Lemma calculate_carbon_footprint_per_year_monotonic_witness :
  (exists x,
      calculate_carbon_footprint_per_year 10 600 = Ok (Finite x) /\
      0 <= x /\ x <= 578299135745065 # 274877906944) /\
  (exists x,
      calculate_carbon_footprint_per_year 65 23 = Ok (Finite x) /\
      0 <= x /\ x <= 578299135745065 # 274877906944) /\
  calculate_carbon_footprint_per_year 65 0 = Ok (Finite 0) /\
  calculate_carbon_footprint_per_year 0 600 = Ok (Finite 0).
Proof.
  destruct calculate_carbon_footprint_per_year_monotonic
    as (Count & Intensity & NoCarbon & NoInstance).
  split; [|split; [|split]].
  - apply (Count 10%Z 65%Z 600%Z); [lia | lia | vm_compute; reflexivity].
  - apply (Intensity 65%Z 23%Z 600%Z); [lia | lia | vm_compute; reflexivity].
  - apply (NoCarbon 65%Z). vm_compute. split; discriminate.
  - apply (NoInstance 600%Z). vm_compute. discriminate.
Defined.

(* ================================================================== *)
(** ** Further properties: reports and runs *)
(* ================================================================== *)

(** X10 (extra).  Labels tell names apart: two names with the same label
    are the same name.  So only a space named [TOTAL] is labelled like
    the total. *)
Theorem label_injective (a b : str) : label a = label b -> a = b.
Proof.
  unfold label.
  destruct (str_eqb a TOTAL) eqn:A; destruct (str_eqb b TOTAL) eqn:B.
  - apply str_eqb_eq in A, B. congruence.
  - intros E. simpl in E. discriminate E.
  - intros E. simpl in E. discriminate E.
  - intros E. apply app_inv_head in E. apply app_inv_tail in E. exact E.
Qed.

Lemma label_injective_witness :
  lit "TOTAL" = lit "TOTAL".
Proof. apply label_injective. reflexivity. Defined.

Section Effects.

Context {host : Host}.

Local Open Scope run_scope.

Lemma report_line_label (name : str) (value : Z) (u : string) :
  startswith (label name ++ lit " ") (report_line (label name) value u) = true.
Proof.
  apply startswith_app. unfold report_line.
  exists (str_of_int value ++ lit " " ++ lit u).
  rewrite <- !app_assoc. reflexivity.
Qed.

Lemma print_footprint_frame (args : Args) (name : str) (n : Z)
  (st : state) :
  world (snd (print_footprint args name n st)) = world st /\
  calls (snd (print_footprint args name n st))
  = calls st ++ [Report name n] /\
  match fst (print_footprint args name n st) with
  | Ok _ =>
      exists line,
        stdout (snd (print_footprint args name n st)) = stdout st ++ [line] /\
        startswith (label name ++ lit " ") line = true
  | Raise _ => stdout (snd (print_footprint args name n st)) = stdout st
  end.
Proof.
  assert (K : forall (r : result float) (u : string) st2,
             let run := (value <- lift r ;;
                         rounded <- lift (Float64.round value) ;;
                         print (report_line (label name) rounded u)) st2 in
             world (snd run) = world st2 /\
             calls (snd run) = calls st2 /\
             match fst run with
             | Ok _ =>
                 exists line,
                   stdout (snd run) = stdout st2 ++ [line] /\
                   startswith (label name ++ lit " ") line = true
             | Raise _ => stdout (snd run) = stdout st2
             end).
  { intros r u st2. cbv zeta. unfold bindM, lift, print.
    destruct r as [v|e]; [|repeat split].
    destruct (Float64.round v) as [z|e]; [|repeat split].
    cbn [fst snd world stdout calls]. repeat split.
    eexists. split; [reflexivity | apply report_line_label]. }
  unfold print_footprint. unfold bindM at 1. unfold record at 1.
  set (st1 := {| world := world st; stdout := stdout st;
                 calls := calls st ++ [Report name n] |}).
  destruct (given (carbon args)) as [c|].
  - unfold bindM at 1. unfold lift at 1.
    destruct (py_int c) as [k|e]; [|repeat split].
    apply (K (calculate_carbon_footprint_per_year n k) _ st1).
  - destruct (year args); apply (K _ _ st1).
Qed.

Lemma print_footprint_prints (args : Args) (name : str) (n : Z)
  (st st' : state) :
  print_footprint args name n st = (Ok tt, st') ->
  world st' = world st /\
  exists line,
    stdout st' = stdout st ++ [line] /\
    startswith (label name ++ lit " ") line = true.
Proof.
  intros H. pose proof (print_footprint_frame args name n st) as (W & _ & P).
  rewrite H in *. cbn [fst snd] in *. split; assumption.
Qed.

(** X11 (extra).  [print_footprint] runs no command, whatever its
    outcome.  When it returns it has printed exactly one line, which
    starts with the label of the name and a space; when it raises it has
    printed nothing. *)
Theorem print_footprint_effects (args : Args) (name : str) (n : Z)
  (st : state) :
  world (snd (print_footprint args name n st)) = world st /\
  calls (snd (print_footprint args name n st))
  = calls st ++ [Report name n] /\
  match fst (print_footprint args name n st) with
  | Ok _ =>
      exists line,
        stdout (snd (print_footprint args name n st)) = stdout st ++ [line] /\
        startswith (label name ++ lit " ") line = true
  | Raise _ => stdout (snd (print_footprint args name n st)) = stdout st
  end.
Proof.
  destruct (print_footprint_frame args name n st) as (W & C & P).
  split; [exact W|]. split; [exact C | exact P].
Qed.

Lemma popen_stdout (cmd out : str) (st st' : state) :
  popen cmd st = (Ok out, st') -> stdout st' = stdout st.
Proof.
  unfold popen. destruct (popen_read cmd (world st)).
  intros [= _ <-]. reflexivity.
Qed.

Lemma switch_to_cf_space_stdout (name : str) (r : result unit)
  (st st' : state) :
  switch_to_cf_space name st = (r, st') ->
  stdout st' = stdout st /\ calls st' = calls st.
Proof.
  unfold switch_to_cf_space, bindM, popen, lift.
  destruct (popen_read _ (world st)) as (out & w).
  destruct (contains _ _) as [[|]|e]; intros [= _ <-]; split; reflexivity.
Qed.

Lemma get_active_instances_stdout (r : result Z) (st st' : state) :
  get_active_instances st = (r, st') -> stdout st' = stdout st.
Proof.
  unfold get_active_instances, bindM, popen, lift, record, ret.
  destruct (popen_read _ (world st)) as (out & w).
  destruct (count_active_instances out); intros [= _ <-]; reflexivity.
Qed.

Lemma get_cf_spaces_stdout (r : result (list str)) (st st' : state) :
  get_cf_spaces st = (r, st') ->
  stdout st' = stdout st /\ calls st' = calls st.
Proof.
  unfold get_cf_spaces, bindM, popen, lift.
  destruct (popen_read _ (world st)) as (out & w).
  destruct (list_spaces out); intros [= _ <-]; split; reflexivity.
Qed.

Lemma get_services_stdout (r : result Z) (st st' : state) :
  get_services st = (r, st') ->
  stdout st' = stdout st /\ calls st' = calls st.
Proof.
  unfold get_services, bindM, popen, lift.
  destruct (popen_read _ (world st)) as (out & w).
  destruct (count_services out); intros [= _ <-]; split; reflexivity.
Qed.

End Effects.

Section Loop.

Context {host : Host}.

Local Open Scope run_scope.

Lemma each_space_concat (args : Args) (xs ys : list str) :
  forall (total : Z) (st : state),
    each_space args (xs ++ ys) total st
    = (total' <- each_space args xs total ;; each_space args ys total') st.
Proof.
  induction xs as [|x xs IH]; intros total st; [reflexivity|].
  cbn [app each_space]. unfold bindM.
  destruct (switch_to_cf_space x st) as [[[]|e] st1]; [|reflexivity].
  destruct (get_active_instances st1) as [[k|e] st2]; [|reflexivity].
  destruct (print_footprint args x k st2) as [[[]|e] st3]; [|reflexivity].
  rewrite IH. unfold bindM. reflexivity.
Qed.

(** X12 (extra).  The loop of [main] over a list of spaces in two parts
    is the loop over the first part followed by the loop over the second
    from the total and the state the first has reached; a failure in the
    first part is the failure of the whole. *)
Theorem each_space_app (args : Args) (xs ys : list str) (total : Z)
  (st : state) :
  each_space args (xs ++ ys) total st
  = (total' <- each_space args xs total ;; each_space args ys total') st /\
  (forall e st', each_space args xs total st = (Raise e, st') ->
                 each_space args (xs ++ ys) total st = (Raise e, st')).
Proof.
  split; [apply each_space_concat|].
  intros e st' F. rewrite each_space_concat. unfold bindM. rewrite F.
  reflexivity.
Qed.

(** The lines a completed loop has printed: one per space, in order. *)
Lemma each_space_lines (args : Args) (spaces : list str) :
  forall (total total' : Z) (st st' : state),
    each_space args spaces total st = (Ok total', st') ->
    exists lines,
      stdout st' = stdout st ++ lines /\
      Forall2 (fun name line =>
                 startswith (label name ++ lit " ") line = true)
              spaces lines.
Proof.
  induction spaces as [|name rest IH]; intros total total' st st' H.
  - injection H as _ <-. exists []. rewrite app_nil_r.
    split; [reflexivity | constructor].
  - cbn [each_space] in H.
    apply bindM_Ok in H. destruct H as ([] & st1 & S & H).
    apply bindM_Ok in H. destruct H as (n & st2 & G & H).
    apply bindM_Ok in H. destruct H as ([] & st3 & P & H).
    apply switch_to_cf_space_stdout in S. destruct S as (S & _).
    apply get_active_instances_stdout in G.
    apply print_footprint_prints in P. destruct P as (_ & line & P & L).
    destruct (IH _ _ _ _ H) as (lines & E & F).
    exists (line :: lines). split; [|constructor; assumption].
    rewrite E, P, G, S, <- app_assoc. reflexivity.
Qed.

(** X13 (extra).  Without [-v], a completed run of [main] makes, in
    all-spaces mode, one [print] call per space of the listing, in the
    order of the listing and each under the label of its space, and then
    one under [TOTAL:]; in single-space mode it makes one [print] call,
    under the label of the space asked for, and none for a total.  (With
    [-v] the functions called also print their narration, which the
    state of a run does not keep.) *)
Theorem main_lines (args : Args) (st st' : state) :
  verbose args = false ->
  main args st = (Ok tt, st') ->
  (given (space args) = None ->
   exists spaces lines total_line,
     fst (get_cf_spaces st) = Ok spaces /\
     stdout st' = stdout st ++ lines ++ [total_line] /\
     Forall2 (fun name line =>
                startswith (label name ++ lit " ") line = true)
             spaces lines /\
     startswith (lit "TOTAL: ") total_line = true) /\
  (forall name,
      given (space args) = Some name ->
      exists line k,
        stdout st' = stdout st ++ [line] /\
        startswith (label name ++ lit " ") line = true /\
        calls st' = calls st ++ [Instances k; Report name k]).
Proof.
  intros _ H. unfold main in H. split.
  - intros Mode. rewrite Mode in H.
    apply bindM_Ok in H. destruct H as (spaces & st0 & S & H).
    apply bindM_Ok in H. destruct H as (total & st1 & E & P).
    destruct (each_space_lines _ _ _ _ _ _ E) as (lines & L & F).
    apply print_footprint_prints in P. destruct P as (_ & line & P & T).
    exists spaces, lines, line. rewrite S.
    apply get_cf_spaces_stdout in S. destruct S as (S & _).
    repeat split; try assumption.
    rewrite P, L, S, <- app_assoc. reflexivity.
  - intros name Mode. rewrite Mode in H.
    apply bindM_Ok in H. destruct H as ([] & st1 & S & H).
    apply bindM_Ok in H. destruct H as (k & st2 & G & H).
    apply bindM_Ok in H. destruct H as ([] & st3 & P & H).
    apply bindM_Ok in H. destruct H as (services & st4 & V & H).
    injection H as <-.
    apply switch_to_cf_space_stdout in S. destruct S as (S1 & S2).
    pose proof (get_active_instances_stdout _ _ _ G) as G1.
    apply get_active_instances_calls in G.
    pose proof (print_footprint_calls _ _ _ _ _ P) as P2.
    apply print_footprint_prints in P. destruct P as (_ & line & P & T).
    apply get_services_stdout in V. destruct V as (V1 & V2).
    exists line, k. split; [|split; [exact T|]].
    + rewrite V1, P, G1, S1. reflexivity.
    + rewrite V2, P2, G, S2, <- app_assoc. reflexivity.
Qed.

(** X14 (extra).  A failure at a space ends the run: when switching to a
    space of the listing fails, [main] raises that error; without [-v],
    what has been printed by then is what one [print] call for each of
    the spaces before it printed, and nothing is printed for a later
    space or for a total. *)
Theorem main_stops_at_failure (args : Args) (pre post : list str)
  (name : str) (e : exn) (total : Z) (st st0 st1 st2 : state) :
  verbose args = false ->
  given (space args) = None ->
  get_cf_spaces st = (Ok (pre ++ name :: post), st0) ->
  each_space args pre 0 st0 = (Ok total, st1) ->
  switch_to_cf_space name st1 = (Raise e, st2) ->
  main args st = (Raise e, st2) /\
  exists lines,
    stdout st2 = stdout st ++ lines /\
    List.length lines = List.length pre.
Proof.
  intros _ Mode S E F. split.
  - unfold main. rewrite Mode. unfold bindM at 1. rewrite S.
    unfold bindM at 1. rewrite each_space_concat. unfold bindM at 1.
    rewrite E. cbn [each_space]. unfold bindM at 1. rewrite F. reflexivity.
  - destruct (each_space_lines _ _ _ _ _ _ E) as (lines & L & A).
    exists lines. apply switch_to_cf_space_stdout in F.
    apply get_cf_spaces_stdout in S.
    destruct F as (-> & _), S as (S & _). rewrite L, S.
    split; [reflexivity|]. symmetry. eapply Forall2_length. exact A.
Qed.

End Loop.

Lemma main_lines_witness :
  exists spaces lines total_line,
    fst (get_cf_spaces (Sim.start Sim.two_spaces)) = Ok spaces /\
    stdout (snd (main no_flags (Sim.start Sim.two_spaces)))
    = stdout (Sim.start Sim.two_spaces) ++ lines ++ [total_line] /\
    Forall2 (fun name line =>
               startswith (label name ++ lit " ") line = true)
            spaces lines /\
    startswith (lit "TOTAL: ") total_line = true.
Proof.
  apply (proj1 (@main_lines Sim.host no_flags (Sim.start Sim.two_spaces)
                  (snd (main no_flags (Sim.start Sim.two_spaces)))
                  eq_refl ltac:(vm_compute; reflexivity))).
  reflexivity.
Defined.

Lemma main_stops_at_failure_witness :
  let st := Sim.start
              [(lit "space-a", Sim.apps_table ["api   started   web:7/7"%string]);
               (lit "b" ++ nl ++ lit "c", Sim.no_apps)] in
  exists e st2,
    @main Sim.host no_flags st = (Raise e, st2) /\
    exists lines,
      stdout st2 = stdout st ++ lines /\ List.length lines = 1%nat.
Proof.
  cbv zeta. eexists _, _.
  eapply (@main_stops_at_failure Sim.host no_flags
            [lit "space-a"] [lit "c"] (lit "b")).
  - reflexivity.
  - reflexivity.
  - vm_compute. reflexivity.
  - vm_compute. reflexivity.
  - vm_compute. reflexivity.
Defined.

(* ================================================================== *)
(** ** Further properties: the commands of a run *)
(* ================================================================== *)

Section Commands.

Context {h : Host}.

Local Open Scope run_scope.

Lemma popen_commands (cmd : str) (r : result str)
  (st st' : @state (logging h)) :
  popen cmd st = (r, st') -> commands st' = commands st ++ [cmd].
Proof.
  unfold popen, commands. cbn [popen_read logging].
  destruct (@popen_read h cmd (fst (world st))).
  intros [= _ <-]. reflexivity.
Qed.

Lemma switch_to_cf_space_commands (name : str) (r : result unit)
  (st st' : @state (logging h)) :
  switch_to_cf_space name st = (r, st') ->
  commands st' = commands st ++ [lit "cf target -s " ++ name].
Proof.
  unfold switch_to_cf_space, bindM.
  destruct (popen (lit "cf target -s " ++ name) st) as [[out|e] st1] eqn:P;
    apply popen_commands in P.
  - unfold lift. destruct (contains _ _) as [[|]|e];
      intros [= _ <-]; exact P.
  - intros [= _ <-]; exact P.
Qed.

Lemma get_active_instances_commands (r : result Z)
  (st st' : @state (logging h)) :
  get_active_instances st = (r, st') ->
  commands st' = commands st ++ [lit "cf apps"].
Proof.
  unfold get_active_instances, bindM.
  destruct (popen (lit "cf apps") st) as [[out|e] st1] eqn:P;
    apply popen_commands in P.
  - unfold lift, record, ret. destruct (count_active_instances out);
      intros [= _ <-]; exact P.
  - intros [= _ <-]; exact P.
Qed.

Lemma get_cf_spaces_commands (r : result (list str))
  (st st' : @state (logging h)) :
  get_cf_spaces st = (r, st') ->
  commands st' = commands st ++ [lit "cf spaces"].
Proof.
  unfold get_cf_spaces, bindM.
  destruct (popen (lit "cf spaces") st) as [[out|e] st1] eqn:P;
    apply popen_commands in P.
  - unfold lift. intros [= _ <-]; exact P.
  - intros [= _ <-]; exact P.
Qed.

Lemma get_services_commands (r : result Z) (st st' : @state (logging h)) :
  get_services st = (r, st') ->
  commands st' = commands st ++ [lit "cf services"].
Proof.
  unfold get_services, bindM.
  destruct (popen (lit "cf services") st) as [[out|e] st1] eqn:P;
    apply popen_commands in P.
  - unfold lift. intros [= _ <-]; exact P.
  - intros [= _ <-]; exact P.
Qed.

Lemma print_footprint_commands (args : Args) (name : str) (n : Z)
  (r : result unit) (st st' : @state (logging h)) :
  print_footprint args name n st = (r, st') -> commands st' = commands st.
Proof.
  intros H. pose proof (print_footprint_frame args name n st) as (W & _).
  rewrite H in W. unfold commands. cbn [snd] in W. rewrite W. reflexivity.
Qed.

Lemma each_space_commands (args : Args) (spaces : list str) :
  forall (total total' : Z) (st st' : @state (logging h)),
    each_space args spaces total st = (Ok total', st') ->
    commands st' = commands st ++ space_commands spaces.
Proof.
  induction spaces as [|name rest IH]; intros total total' st st' H.
  - injection H as _ <-. simpl. rewrite app_nil_r. reflexivity.
  - cbn [each_space] in H.
    apply bindM_Ok in H. destruct H as ([] & st1 & S & H).
    apply bindM_Ok in H. destruct H as (n & st2 & G & H).
    apply bindM_Ok in H. destruct H as ([] & st3 & P & H).
    apply switch_to_cf_space_commands in S.
    apply get_active_instances_commands in G.
    apply print_footprint_commands in P.
    rewrite (IH _ _ _ _ H), P, G, S. unfold space_commands. simpl.
    rewrite <- !app_assoc. reflexivity.
Qed.

(** X15 (extra).  The commands of a completed run of [main], on a host
    that keeps them.  In all-spaces mode: [cf spaces], then for each
    space of the listing, in order, [cf target -s <space>] and
    [cf apps].  In single-space mode: [cf target -s <space>], [cf apps]
    and [cf services].  No other command is run: no login, and no
    [cf services] in all-spaces mode. *)
Theorem main_commands (args : Args) (st st' : @state (logging h)) :
  main args st = (Ok tt, st') ->
  (given (space args) = None ->
   exists spaces,
     fst (get_cf_spaces st) = Ok spaces /\
     commands st'
     = commands st ++ [lit "cf spaces"] ++ space_commands spaces) /\
  (forall name,
      given (space args) = Some name ->
      commands st'
      = commands st ++ [lit "cf target -s " ++ name; lit "cf apps";
                        lit "cf services"]).
Proof.
  intros H. unfold main in H. split.
  - intros Mode. rewrite Mode in H.
    apply bindM_Ok in H. destruct H as (spaces & st0 & S & H).
    apply bindM_Ok in H. destruct H as (total & st1 & E & P).
    exists spaces. rewrite S. split; [reflexivity|].
    apply get_cf_spaces_commands in S. apply each_space_commands in E.
    apply print_footprint_commands in P.
    rewrite P, E, S, <- app_assoc. reflexivity.
  - intros name Mode. rewrite Mode in H.
    apply bindM_Ok in H. destruct H as ([] & st1 & S & H).
    apply bindM_Ok in H. destruct H as (k & st2 & G & H).
    apply bindM_Ok in H. destruct H as ([] & st3 & P & H).
    apply bindM_Ok in H. destruct H as (services & st4 & V & H).
    injection H as <-.
    apply switch_to_cf_space_commands in S.
    apply get_active_instances_commands in G.
    apply print_footprint_commands in P.
    apply get_services_commands in V.
    rewrite V, P, G, S, <- !app_assoc. reflexivity.
Qed.

End Commands.

Lemma main_commands_witness :
  let st : @state (logging Sim.host) :=
    {| world := (({| Sim.org := Sim.two_spaces; Sim.targeted := [] |}, [])
                 : @World (logging Sim.host));
       stdout := []; calls := [] |} in
  let one := {| year := true; carbon := None;
                space := Some (lit "space-b"); verbose := false |} in
  commands (snd (main one st))
  = commands st ++ [lit "cf target -s " ++ lit "space-b"; lit "cf apps";
                    lit "cf services"] /\
  exists spaces,
    fst (get_cf_spaces st) = Ok spaces /\
    commands (snd (main no_flags st))
    = commands st ++ [lit "cf spaces"] ++ space_commands spaces.
Proof.
  intros st one.
  assert (R1 : main one st = (Ok tt, snd (main one st)))
    by (vm_compute; reflexivity).
  assert (R2 : main no_flags st = (Ok tt, snd (main no_flags st)))
    by (vm_compute; reflexivity).
  split.
  - exact (proj2 (@main_commands Sim.host one st (snd (main one st)) R1)
             (lit "space-b") eq_refl).
  - exact (proj1 (@main_commands Sim.host no_flags st
                    (snd (main no_flags st)) R2) eq_refl).
Defined.

Lemma each_space_app_witness :
  exists e st',
    @each_space Sim.host no_flags ([lit "nowhere"] ++ [lit "space-a"]) 0
      (Sim.start Sim.two_spaces)
    = (Raise e, st').
Proof.
  eexists _, _.
  apply (proj2 (@each_space_app Sim.host no_flags [lit "nowhere"]
                  [lit "space-a"] 0%Z (Sim.start Sim.two_spaces))).
  vm_compute. reflexivity.
Defined.
